(** * ACME: the lumped CMF model generator

    A shallow embedding of [acme/model_generators/create_lumped_CMF_model.py]
    and the properties of its genetic operators, of the structural validator
    and of the fitness cache.

    Python lists are objects on a heap and are passed by reference; the
    [random] module is a stream of raw draws read through a cursor; a raised
    exception and an exhausted loop budget are outcomes of their own. *)

From Stdlib Require Import QArith Ascii String.
From stdpp Require Import gmap strings list fin_maps.

Open Scope string_scope.
Open Scope list_scope.
Open Scope nat_scope.

(** ** Python strings *)

Module PyStr.

(** [needle in hay] on strings. *)
Fixpoint contains (needle hay : string) : bool :=
  String.prefix needle hay ||
  match hay with
  | EmptyString => false
  | String _ hay' => contains needle hay'
  end.

(** Code points below 256 for which [str.isspace] holds. *)
Definition isspace (c : ascii) : bool :=
  let n := nat_of_ascii c in
  ((9 <=? n) && (n <=? 13)) || ((28 <=? n) && (n <=? 32))
  || (n =? 133) || (n =? 160).

(** [s.split()]: the maximal runs of non-whitespace characters.
    [cur] is the run being read. *)
Fixpoint split_from (cur s : string) : list string :=
  match s with
  | EmptyString => if String.eqb cur "" then [] else [cur]
  | String c s' =>
      if isspace c
      then (if String.eqb cur "" then split_from "" s'
            else cur :: split_from "" s')
      else split_from (cur ++ String c "")%string s'
  end.

Definition split (s : string) : list string := split_from "" s.

(** [sep.join(parts)]. *)
Fixpoint join (sep : string) (parts : list string) : string :=
  match parts with
  | [] => ""
  | [p] => p
  | p :: rest => (p ++ sep ++ join sep rest)%string
  end.

(** [set(a) == set(b)] for two lists of strings. *)
Definition set_eqb (a b : list string) : bool :=
  forallb (fun x => bool_decide (x ∈ b)) a
  && forallb (fun x => bool_decide (x ∈ a)) b.

End PyStr.

(** ** The class attributes of [LumpedCMFGenerator] *)

Module LumpedCMFGenerator.

Definition storages : list string :=
  ["snow"; "canopy"; "second_layer"; "third_layer"; "river"].
Definition connections : list string :=
  ["tr_first_out"; "tr_first_river"; "tr_first_third";
   "tr_second_third"; "tr_second_river_or_out";
   "tr_third_river_or_out"; "river_out"].
Definition snow_params : list string := ["meltrate"; "snow_melt_temp"].
Definition canopy_params : list string := ["lai"; "canopy_closure"].
Definition first_layer_params : list string :=
  ["beta_first_out"; "beta_first_river";
   "beta_first_second"; "v0_first_out";
   "v0_first_river"; "v0_first_second"].
Definition second_layer_params : list string :=
  ["beta_second_river"; "beta_second_third"].
Definition third_layer_params : list string := ["beta_third_river"].
Definition river_params : list string := ["beta_river_out"].
Definition params : list string :=
  snow_params ++ canopy_params ++
  first_layer_params ++
  second_layer_params ++ third_layer_params ++
  river_params.
Definition gene_set : list string := storages ++ connections ++ params.

End LumpedCMFGenerator.

(** ** The interpreter state *)

(** A reference to a list object. *)
Definition loc := nat.

Record world := World {
  heap : gmap loc (list string);   (* the list objects *)
  draws : nat -> N;                (* raw output of the random generator *)
  cursor : nat;                    (* number of draws consumed so far *)
  str_hash : string -> N           (* the per-process string hash *)
}.

Definition set_heap (h : gmap loc (list string)) (w : world) : world :=
  World h (draws w) (cursor w) (str_hash w).

(** The state after one draw. *)
Definition advance (w : world) : world :=
  World (heap w) (draws w) (S (cursor w)) (str_hash w).

(** The list a reference points to. Every reference a Python program holds is
    live; a reference outside the heap reads as the empty list. *)
Definition deref (w : world) (r : loc) : list string := heap w !!! r.

Inductive exn := TypeError | ValueError | IndexError.

Inductive outcome (A : Type) :=
| Ok (a : A) (w : world)      (* normal return *)
| Raise (e : exn) (w : world) (* an exception propagates *)
| Spin.                       (* a loop outlived its budget of iterations *)
Arguments Ok {A} a w.
Arguments Raise {A} e w.
Arguments Spin {A}.

Definition Py (A : Type) : Type := world -> outcome A.

Definition ret {A} (a : A) : Py A := fun w => Ok a w.
Definition bind {A B} (m : Py A) (f : A -> Py B) : Py B :=
  fun w => match m w with
           | Ok a w' => f a w'
           | Raise e w' => Raise e w'
           | Spin => Spin
           end.
Definition raise {A} (e : exn) : Py A := fun w => Raise e w.
Definition spin {A} : Py A := fun _ => Spin.

#[global] Instance Py_ret : MRet Py := @ret.
#[global] Instance Py_bind : MBind Py := fun A B f m => bind m f.

(** [if b: m] without an [else]. *)
Definition when (b : bool) (m : Py unit) : Py unit :=
  if b then m else ret tt.

(** ** List objects *)

(** [[...]] or [xs[:]]: a new list object. *)
Definition new_list (l : list string) : Py loc :=
  fun w => let r := fresh (dom (heap w)) in
           Ok r (set_heap (<[r := l]> (heap w)) w).

Definition read_list (r : loc) : Py (list string) :=
  fun w => Ok (deref w r) w.

Definition write_list (r : loc) (l : list string) : Py unit :=
  fun w => Ok tt (set_heap (<[r := l]> (heap w)) w).

(** [r.append(x)] *)
Definition list_append (r : loc) (x : string) : Py unit :=
  l ← read_list r; write_list r (l ++ [x]).

(** [x in r] *)
Definition list_contains (x : string) (r : loc) : Py bool :=
  l ← read_list r; mret (bool_decide (x ∈ l)).

(** [len(r)] *)
Definition list_len (r : loc) : Py nat :=
  l ← read_list r; mret (length l).

(** [r.pop()] *)
Definition list_pop (r : loc) : Py string :=
  l ← read_list r;
  match last l with
  | None => raise IndexError
  | Some x => write_list r (removelast l);; mret x
  end.

(** [r[i] = x] for a non-negative index. *)
Definition list_setitem (r : loc) (i : nat) (x : string) : Py unit :=
  l ← read_list r;
  if decide (i < length l) then write_list r (<[i := x]> l)
  else raise IndexError.

(** [r[i]] for a non-negative index. *)
Definition list_getitem (r : loc) (i : nat) : Py string :=
  l ← read_list r;
  match l !! i with
  | Some x => mret x
  | None => raise IndexError
  end.

(** ** Values passed where a sequence is expected *)

Inductive pyval :=
| PyList (l : list string)      (* a list that is only read *)
| PyFunction (name : string).   (* a function object *)

(** [len(v)] *)
Definition py_len (v : pyval) : Py nat :=
  match v with
  | PyList l => mret (length l)
  | PyFunction _ => raise TypeError
  end.

(** Iterating [v], as [set(v)] does. *)
Definition py_iter (v : pyval) : Py (list string) :=
  match v with
  | PyList l => mret l
  | PyFunction _ => raise TypeError
  end.

(** ** Loops *)

Inductive flow := Next | Break.

(** [for _ in range(n): body], where the body may [break]. *)
Fixpoint for_range (n : nat) (body : Py flow) : Py unit :=
  match n with
  | 0 => mret tt
  | S n' => c ← body;
            match c with
            | Break => mret tt
            | Next => for_range n' body
            end
  end.

(** [while True: body], left by [break]; [fuel] bounds the iterations. *)
Fixpoint while_true (fuel : nat) (body : Py flow) : Py unit :=
  match fuel with
  | 0 => spin
  | S fuel' => c ← body;
               match c with
               | Break => mret tt
               | Next => while_true fuel' body
               end
  end.

(** [while cond: body]; [fuel] bounds the iterations. *)
Fixpoint while_ (fuel : nat) (cond : Py bool) (body : Py unit) : Py unit :=
  match fuel with
  | 0 => spin
  | S fuel' => b ← cond;
               if b : bool then body;; while_ fuel' cond body else mret tt
  end.

(** ** The [random] module *)

Definition Qltb (a b : Q) : bool := negb (Qle_bool b a).

Module random.

Definition next_draw : Py N :=
  fun w => Ok (draws w (cursor w)) (advance w).

(** A uniform integer below [n], for [0 < n]. *)
Definition randbelow (n : nat) : Py nat :=
  d ← next_draw; mret (N.to_nat (d mod N.of_nat n)).

(** [random.random()]: a multiple of 2^-53 in [0, 1), as a rational. *)
Definition random : Py Q :=
  d ← next_draw; mret (Z.of_N (d mod 2 ^ 53) # 2 ^ 53).

(** [random.randrange(start, stop)] *)
Definition randrange (start stop : nat) : Py nat :=
  if decide (start < stop)
  then k ← randbelow (stop - start); mret (start + k)
  else raise ValueError.

(** [random.randint(a, b)], both ends included. *)
Definition randint (a b : nat) : Py nat := randrange a (b + 1).

(** [random.choice(seq)] *)
Definition choice (seq : pyval) : Py string :=
  n ← py_len seq;
  l ← py_iter seq;
  if decide (n = 0) then raise IndexError
  else i ← randbelow n; mret (default "" (l !! i)).

Definition swap_items (l : list string) (i j : nat) : list string :=
  match l !! i, l !! j with
  | Some x, Some y => <[i := y]> (<[j := x]> l)
  | _, _ => l
  end.

(** The loop of [random.shuffle]:
    [for i in reversed(range(1, len(x))): j = randbelow(i + 1); swap]. *)
Fixpoint shuffle_from (i : nat) (r : loc) : Py unit :=
  match i with
  | 0 => mret tt
  | S i' => j ← randbelow (i + 1);
            l ← read_list r;
            write_list r (swap_items l i j);;
            shuffle_from i' r
  end.

(** [random.shuffle(r)], in place. *)
Definition shuffle (r : loc) : Py unit :=
  n ← list_len r; shuffle_from (n - 1) r.

(** [random.sample(population, 2)]: two items at distinct positions,
    drawn from a pool that shrinks by one after the first draw. *)
Definition sample2 (population : pyval) : Py (string * string) :=
  n ← py_len population;
  pool ← py_iter population;
  if decide (2 ≤ n) then
    j ← randbelow n;
    let first := default "" (pool !! j) in
    let pool := <[j := default "" (pool !! (n - 1))]> pool in
    j ← randbelow (n - 1);
    mret (first, default "" (pool !! j))
  else raise ValueError.

End random.

(** The lists an outcome leaves behind. *)
Definition genes_after {A} (o : outcome A) (r : loc) : option (list string) :=
  match o with
  | Ok _ w => Some (deref w r)
  | _ => None
  end.

Definition genes_returned (o : outcome loc) : option (list string) :=
  match o with
  | Ok r w => Some (deref w r)
  | _ => None
  end.

(** ** The genetic operators *)

(** [mutate(genes, gene_set)]; [fuel] bounds the inner [while True]. *)
Definition mutate (fuel : nat) (genes : loc) (gene_set : pyval) : Py unit :=
  mutation_type ← random.choice (PyList ["add"; "del"; "swap"]);
  let max_changes := 3 in
  if String.eqb mutation_type "add" then
    n ← random.randint 1 max_changes;
    for_range n (
      mine ← read_list genes;
      all ← py_iter gene_set;
      if PyStr.set_eqb mine all then
        random.shuffle genes;;
        list_pop genes;;
        mret Break
      else
        while_true fuel (
          new_gene ← random.choice gene_set;
          present ← list_contains new_gene genes;
          if negb present then
            list_append genes new_gene;;
            mret Break
          else mret Next);;
        mret Next)
  else if String.eqb mutation_type "del" then
    n ← random.randint 1 max_changes;
    for_range n (
      len ← list_len genes;
      if len =? 0 then
        new_gene ← random.choice gene_set;
        list_append genes new_gene;;
        mret Break
      else
        random.shuffle genes;;
        list_pop genes;;
        mret Next)
  else if String.eqb mutation_type "swap" then
    n ← random.randint 1 max_changes;
    for_range n (
      initial_genes ← (l ← read_list genes; new_list l);
      len ← list_len genes;
      index ← random.randrange 0 len;
      sampled ← random.sample2 gene_set;
      let '(new_gene, alternate) := sampled in
      current ← list_getitem initial_genes index;
      list_setitem initial_genes index
        (if String.eqb new_gene current then alternate else new_gene);;
      mret Next)
  else mret tt.

(** [list(set(l))]: the distinct items, in the order of their hashes. *)
Fixpoint insert_by (h : string -> N) (x : string) (l : list string)
  : list string :=
  match l with
  | [] => [x]
  | y :: l' => if (h x <=? h y)%N then x :: l else y :: insert_by h x l'
  end.

Definition list_of_set (l : list string) : Py (list string) :=
  fun w => Ok (foldr (insert_by (str_hash w)) [] (remove_dups l)) w.

(** [crossover(first_parent, second_parent)] *)
Definition crossover (first_parent second_parent : loc) : Py loc :=
  len_first ← list_len first_parent;
  index_first_parent ← random.randint 0 len_first;
  len_second ← list_len second_parent;
  index_second_parent ← random.randint 0 len_second;
  first ← read_list first_parent;
  let part_first_parent := take index_first_parent first in
  second ← read_list second_parent;
  let part_second_parent := drop index_second_parent second in
  let child_genes := part_first_parent ++ part_second_parent in
  child_genes ← list_of_set child_genes;
  new_list child_genes.

(** [if random.random() < threshold: body]. The threshold of [create] is the
    float nearest to 1/3; it and the rational 1/3 have the same multiples of
    2^-53 below them ([below_third]). *)
Definition if_below (threshold : Q) (body : Py unit) : Py unit :=
  x ← random.random; when (Qltb x threshold) body.

(** [create()]; [fuel] bounds the second-layer loop. [1/3] is the division
    of Python 3. *)
Definition create (fuel : nat) : Py loc :=
  let threshold := 1 # 3 in
  genes ← new_list [];
  (* Snow *)
  if_below threshold (
    list_append genes "snow";;
    if_below threshold (list_append genes "meltrate");;
    if_below threshold (list_append genes "snow_melt_temp"));;
  (* Canopy *)
  if_below threshold (
    list_append genes "canopy";;
    if_below threshold (list_append genes "canopy_closure");;
    if_below threshold (list_append genes "lai"));;
  (* Layers *)
  if_below threshold (
    list_append genes "second_layer";;
    if_below threshold (list_append genes "third_layer"));;
  if_below threshold (list_append genes "river");;
  (* Connections first layer *)
  if_below threshold (
    list_append genes "tr_first_second";;
    if_below threshold (list_append genes "beta_first_second");;
    if_below threshold (list_append genes "v0_first_second"));;
  if_below threshold (
    list_append genes "tr_first_river";;
    if_below threshold (list_append genes "beta_first_river");;
    if_below threshold (list_append genes "v0_first_river"));;
  if_below threshold (
    list_append genes "tr_first_out";;
    if_below threshold (list_append genes "beta_first_out");;
    if_below threshold (list_append genes "v0_first_out"));;
  (* Connections second layer *)
  (has_second ← list_contains "second_layer" genes;
   when has_second (
     while_ fuel
       (third ← list_contains "tr_second_third" genes;
        river ← list_contains "tr_second_river" genes;
        mret (negb third || negb river))
       (if_below threshold (
          list_append genes "tr_second_third";;
          if_below threshold (list_append genes "beta_second_third"));;
        if_below threshold (
          list_append genes "tr_second_river";;
          if_below threshold (list_append genes "beta_second_river")))));;
  (* Connections third layer *)
  (has_third ← list_contains "third_layer" genes;
   when has_third (
     list_append genes "tr_third_river";;
     if_below threshold (list_append genes "beta_third_river")));;
  (* River *)
  (has_river ← list_contains "river" genes;
   when has_river (
     if_below threshold (list_append genes "beta_river_out")));;
  mret genes.

(** [check_for_connection(genes)] *)
Definition check_for_connection (genes : loc) : Py unit :=
  let outgoing :=
    foldl (fun outgoing connection =>
             if PyStr.contains "out" connection
             then outgoing ++ [connection] else outgoing)
          [] LumpedCMFGenerator.connections in
  to_outlet ←
    foldr (fun connection rest =>
             present ← list_contains connection genes;
             if present : bool then mret true else rest)
          (mret false) outgoing;
  when (negb to_outlet) (list_append genes "tr_first_out").

(** ** The helpers [solve] hands to the evolutionary engine *)

Module solve.

Definition fn_create (fuel : nat) : Py loc := create fuel.

(** [def fn_mutate(genes): mutate(genes, fn_get_fitness)] *)
Definition fn_mutate (fuel : nat) (genes : loc) : Py unit :=
  mutate fuel genes (PyFunction "fn_get_fitness").

Definition fn_crossover (parent donor : loc) : Py loc :=
  crossover parent donor.

(** [while not self.optimal_fitness > best.fitness: pass], with the
    fitness values as rationals. *)
Definition wait_loop (fuel : nat) (optimal_fitness best_fitness : Q)
  : Py unit :=
  while_ fuel (mret (negb (Qltb best_fitness optimal_fitness))) (mret tt).

End solve.

(** ** The fitness cache

    [get_fitness] touches no list object and draws no random number of its
    own: its state is the class-level dictionary [models_so_far] and the
    number of calibration runs started so far. *)

Module PyDict.

(** A dictionary with string keys, in insertion order. *)
Definition t (V : Type) : Type := list (string * V).

(** [d[k] = v] *)
Fixpoint set {V} (k : string) (v : V) (d : t V) : t V :=
  match d with
  | [] => [(k, v)]
  | (k', v') :: d' =>
      if String.eqb k' k then (k', v) :: d' else (k', v') :: set k v d'
  end.

End PyDict.

Section Fitness.

Variables Fit Data ObjFunc Model : Type.
(** [template.LumpedModelCMF] *)
Variable LumpedModelCMF : list string -> Data -> ObjFunc -> Model.

(** A sampling algorithm: what [sampler.bestlike] reads after
    [sampler.sample(500, convergence_limit=1.6)] in its n-th run. *)
Definition Algorithm : Type := Model -> nat -> Fit.

Record fitness_state := FitnessState {
  models_so_far : PyDict.t Fit;
  runs : nat
}.

(** The loop over [models_so_far.keys()]: the value stored under the
    first key whose genes are those of [genes]. *)
Fixpoint cached (items : PyDict.t Fit) (genes : list string) : option Fit :=
  match items with
  | [] => None
  | (old_model, fitness) :: rest =>
      let old_model_genes := PyStr.split old_model in
      if PyStr.set_eqb old_model_genes genes then Some fitness
      else cached rest genes
  end.

Definition get_fitness (genes : list string) (data : Data)
    (obj_func : ObjFunc) (algorithm : Algorithm) (st : fitness_state)
  : Fit * fitness_state :=
  match cached (models_so_far st) genes with
  | Some fitness => (fitness, st)
  | None =>
      let current_model := LumpedModelCMF genes data obj_func in
      let best_like := algorithm current_model (runs st) in
      let model_key := PyStr.join " " genes in
      (best_like,
       FitnessState (PyDict.set model_key best_like (models_so_far st))
                    (S (runs st)))
  end.

(** A run of fitness evaluations, one genotype after the other. *)
Fixpoint evaluate_all (population : list (list string)) (data : Data)
    (obj_func : ObjFunc) (algorithm : Algorithm) (st : fitness_state)
  : fitness_state :=
  match population with
  | [] => st
  | genes :: rest =>
      evaluate_all rest data obj_func algorithm
        (get_fitness genes data obj_func algorithm st).2
  end.

End Fitness.

Arguments FitnessState {Fit} _ _.
Arguments models_so_far {Fit} _.
Arguments runs {Fit} _.

(** A gene token [" ".join] and [split] carry unharmed: not empty and free of
    whitespace. *)
Definition token_ok (s : string) : bool :=
  negb (String.eqb s "")
  && forallb (fun c => negb (PyStr.isspace c)) (list_ascii_of_string s).

(** ** Vocabulary of the statements *)

(** The kind that [random.choice(["add", "del", "swap"])] selects in [w]. *)
Definition picks (kind : string) (w : world) : Prop :=
  random.choice (PyList ["add"; "del"; "swap"]) w = Ok kind (advance w).

(** What an in-place operation on [r] leaves of the state: the list at [r]
    is a permutation of the old one, no other list is touched. *)
Definition permutes (r : loc) (w w' : world) : Prop :=
  deref w' r ≡ₚ deref w r
  /\ (forall r', r' <> r -> heap w' !! r' = heap w !! r').

(** [m], when it returns, has only appended genes of [allowed] to the list
    behind [r]. *)
Definition appends_to {A} (r : loc) (allowed : list string) (m : Py A)
  : Prop :=
  forall w a w', m w = Ok a w' ->
    exists suffix,
      deref w' r = deref w r ++ suffix /\ suffix ⊆ allowed.

(** The connection genes of the catalogue with "out" in their name. *)
Definition outlet_routes : list string :=
  ["tr_first_out"; "tr_second_river_or_out"; "tr_third_river_or_out";
   "river_out"].

(** A connection gene of the catalogue whose name contains the outlet marker
    is among the genes. *)
Definition has_outlet (l : list string) : Prop :=
  exists c, c ∈ LumpedCMFGenerator.connections
            /\ PyStr.contains "out" c = true /\ c ∈ l.

(** One of them is among the genes. *)
Definition connected (l : list string) : bool :=
  existsb (fun c => bool_decide (c ∈ l)) outlet_routes.

(** [create] followed by the structural validator. *)
Definition validated_create (fuel : nat) : Py loc :=
  genes ← create fuel; check_for_connection genes;; mret genes.

(** The connection genes that route water out of a storage, read off the
    names of the genes: [tr_<source>_<target>], and [river_out] for the
    river. *)
Definition outflow_prefixes (storage : string) : list string :=
  if String.eqb storage "snow" then ["tr_snow_"]
  else if String.eqb storage "canopy" then ["tr_canopy_"]
  else if String.eqb storage "second_layer" then ["tr_second_"]
  else if String.eqb storage "third_layer" then ["tr_third_"]
  else if String.eqb storage "river" then ["tr_river_"; "river_out"]
  else [].

(** [connection] routes water out of [storage]. *)
Definition drains (storage connection : string) : bool :=
  existsb (fun p => String.prefix p connection) (outflow_prefixes storage).

(** Each of the given storages that is among the genes has a connection gene
    of its own among them. *)
Definition storages_drain (storages l : list string) : Prop :=
  forall storage, storage ∈ storages -> storage ∈ l ->
    exists connection, connection ∈ l /\ drains storage connection = true.

(** What the add and del kinds keep of a genotype: no gene twice, and no
    gene from outside the old genotype and the universe. *)
Definition well_kept (genes : loc) (old universe : list string) (w : world)
  : Prop :=
  NoDup (deref w genes)
  /\ forall gene, gene ∈ deref w genes -> gene ∈ old \/ gene ∈ universe.

(** No two keys of the cache split into the same genes. *)
Definition distinct_models {Fit} (items : PyDict.t Fit) : Prop :=
  forall i j key fitness key' fitness',
    items !! i = Some (key, fitness) ->
    items !! j = Some (key', fitness') ->
    PyStr.set_eqb (PyStr.split key) (PyStr.split key') = true ->
    i = j.

(** [crossover] followed by the structural validator. *)
Definition validated_crossover (first_parent second_parent : loc) : Py loc :=
  child ← crossover first_parent second_parent;
  check_for_connection child;;
  mret child.

(** The genes [create] can write, in the order of its statements. *)
Definition create_genes : list string :=
  ["snow"; "meltrate"; "snow_melt_temp";
   "canopy"; "canopy_closure"; "lai";
   "second_layer"; "third_layer"; "river";
   "tr_first_second"; "beta_first_second"; "v0_first_second";
   "tr_first_river"; "beta_first_river"; "v0_first_river";
   "tr_first_out"; "beta_first_out"; "v0_first_out";
   "tr_second_third"; "beta_second_third";
   "tr_second_river"; "beta_second_river";
   "tr_third_river"; "beta_third_river"; "beta_river_out"].

(** [m] raises no exception. *)
Definition never_raises {A} (m : Py A) : Prop :=
  forall w e w', m w <> Raise e w'.

(** The genes [create] writes under a condition, each with the gene whose
    presence the condition tests. *)
Definition owners : list (string * string) :=
  [("meltrate", "snow"); ("snow_melt_temp", "snow");
   ("canopy_closure", "canopy"); ("lai", "canopy");
   ("third_layer", "second_layer");
   ("beta_first_second", "tr_first_second");
   ("v0_first_second", "tr_first_second");
   ("beta_first_river", "tr_first_river");
   ("v0_first_river", "tr_first_river");
   ("beta_first_out", "tr_first_out"); ("v0_first_out", "tr_first_out");
   ("tr_second_third", "second_layer"); ("beta_second_third", "tr_second_third");
   ("tr_second_river", "second_layer"); ("beta_second_river", "tr_second_river");
   ("tr_third_river", "third_layer"); ("beta_third_river", "tr_third_river");
   ("beta_river_out", "river")].

(** Every gene of [l] that has an owner has it in [l]. *)
Definition owned (l : list string) : Prop :=
  forall gene owner, (gene, owner) ∈ owners -> gene ∈ l -> owner ∈ l.

(** [l] is owned and holds the genes of [present]. *)
Definition known (present l : list string) : Prop :=
  owned l /\ forall gene, gene ∈ present -> gene ∈ l.

(** The owners of [x] are among [present]. *)
Definition owners_among (x : string) (present : list string) : bool :=
  forallb (fun '(gene, owner) =>
             negb (String.eqb gene x) || bool_decide (owner ∈ present))
          owners.

(** Every gene of [present] is among [present']. *)
Definition all_among (present present' : list string) : bool :=
  forallb (fun gene => bool_decide (gene ∈ present')) present.

(** A run of [m] takes a list known with [present] to one known with
    [present']. *)
Definition keeps {A} (r : loc) (present present' : list string) (m : Py A)
  : Prop :=
  forall w a w', m w = Ok a w' ->
    known present (deref w r) -> known present' (deref w' r).

(** The genes the second-layer loop writes. *)
Definition loop_genes : list string :=
  ["tr_second_third"; "beta_second_third";
   "tr_second_river"; "beta_second_river"].

(** The genes of [l] that the loop does not write. *)
Definition outside_loop (l : list string) : list string :=
  filter (fun gene => gene ∉ loop_genes) l.

(** What is left of a schedule once [x] has had its turn. *)
Fixpoint after (x : string) (schedule : list string) : list string :=
  match schedule with
  | [] => []
  | y :: schedule' => if String.eqb y x then schedule' else after x schedule'
  end.

(** A run of [m] appends genes that, the loop's aside, follow [schedule] in
    its order and leave [schedule'] of it to come. *)
Definition scheduled {A} (r : loc) (schedule schedule' : list string)
    (m : Py A) : Prop :=
  schedule' `sublist_of` schedule
  /\ forall w a w', m w = Ok a w' ->
       exists s,
         deref w' r = deref w r ++ s
         /\ forall rest, rest `sublist_of` schedule' ->
              outside_loop s ++ rest `sublist_of` schedule.

(** ** States to run the operators in *)

(** Raw draws for a roll below and a roll above the threshold. *)
Definition yes : N := 0.
Definition no : N := 2 ^ 52.

(** An empty heap and the given raw draws, zeros after them. *)
Definition drawing (raw : list N) : world :=
  World ∅ (fun i => default 0%N (raw !! i)) 0 (fun _ => 0%N).

(** An empty heap, and rolls that all fail except those listed. *)
Definition rolling (hits : list nat) : world :=
  World ∅ (fun i => if existsb (Nat.eqb i) hits then yes else no) 0
        (fun _ => 0%N).

(** One list at reference 0 and the given raw draws, zeros after them. *)
Definition world_of (genes : list string) (raw : list N) : world :=
  World {[0 := genes]} (fun i => default 0%N (raw !! i)) 0 (fun _ => 0%N).

(** The whole universe at reference 0; every draw is 0. *)
Definition world_full : world :=
  World {[0 := LumpedCMFGenerator.gene_set]} (fun _ => 0%N) 0 (fun _ => 0%N).

(** An empty genotype at reference 0; every draw is 1. *)
Definition world_empty : world :=
  World {[0 := []]} (fun _ => 1%N) 0 (fun _ => 0%N).

(** * Running computations *)

Lemma bind_run {A B} (m : Py A) (f : A -> Py B) (w : world) :
  (m ≫= f) w = match m w with
               | Ok a w' => f a w'
               | Raise e w' => Raise e w'
               | Spin => Spin
               end.
Proof. reflexivity. Qed.

Lemma bind_Ok {A B} (m : Py A) (f : A -> Py B) w a w1 :
  m w = Ok a w1 -> (m ≫= f) w = f a w1.
Proof. intros H. by rewrite bind_run, H. Qed.

Lemma bind_Raise {A B} (m : Py A) (f : A -> Py B) w e w1 :
  m w = Raise e w1 -> (m ≫= f) w = Raise e w1.
Proof. intros H. by rewrite bind_run, H. Qed.

(** One step of a run: the first statement returns as [H] says, or returns
    by computation. *)
Ltac py_run H := erewrite bind_Ok by exact H.
Ltac py_pure := erewrite bind_Ok by reflexivity.

Lemma ret_Ok_inv {A} (a a' : A) w w' :
  (mret a : Py A) w = Ok a' w' -> a' = a /\ w' = w.
Proof. intros H. by injection H as <- <-. Qed.

Lemma bind_Spin {A B} (m : Py A) (f : A -> Py B) w :
  m w = Spin -> (m ≫= f) w = Spin.
Proof. intros H. by rewrite bind_run, H. Qed.

(** One step of a run on a closed state, by evaluation. *)
Ltac py_eval := erewrite bind_Ok by (vm_compute; reflexivity).

Lemma bind_Ok_inv {A B} (m : Py A) (f : A -> Py B) w b w' :
  (m ≫= f) w = Ok b w' ->
  exists a w1, m w = Ok a w1 /\ f a w1 = Ok b w'.
Proof.
  rewrite bind_run. destruct (m w) as [a w1| |]; [eauto | discriminate..].
Qed.

Lemma deref_set_heap_eq w r l :
  deref (set_heap (<[r := l]> (heap w)) w) r = l.
Proof. unfold deref. simpl. apply lookup_total_insert_eq. Qed.

Lemma deref_set_heap_ne w r r' l :
  r <> r' -> deref (set_heap (<[r := l]> (heap w)) w) r' = deref w r'.
Proof. intros. unfold deref. simpl. by apply lookup_total_insert_ne. Qed.

Lemma list_append_run r x w :
  list_append r x w = Ok tt (set_heap (<[r := deref w r ++ [x]]> (heap w)) w).
Proof. reflexivity. Qed.

Lemma list_contains_run x r w :
  list_contains x r w = Ok (bool_decide (x ∈ deref w r)) w.
Proof. reflexivity. Qed.

(** * The structural validator *)

Lemma has_outlet_routes l :
  has_outlet l <-> exists c, c ∈ outlet_routes /\ c ∈ l.
Proof.
  unfold has_outlet, outlet_routes, LumpedCMFGenerator.connections.
  split.
  - intros (c & Hc & Hout & Hl). exists c. split; [|done].
    set_unfold. destruct Hc as [->|[->|[->|[->|[->|[->|[->|[]]]]]]]];
      vm_compute in Hout; try discriminate; tauto.
  - intros (c & Hc & Hl). exists c. split; [|split; [|done]].
    + set_unfold. tauto.
    + set_unfold. destruct Hc as [->|[->|[->|[->|[]]]]]; reflexivity.
Qed.

Lemma outgoing_routes :
  foldl (fun outgoing connection =>
           if PyStr.contains "out" connection
           then outgoing ++ [connection] else outgoing)
        [] LumpedCMFGenerator.connections = outlet_routes.
Proof. reflexivity. Qed.

Lemma connected_has_outlet l : connected l = true <-> has_outlet l.
Proof.
  rewrite has_outlet_routes. unfold connected. rewrite existsb_exists.
  split; intros (c & Hc & Hl); exists c.
  - apply list_elem_of_In in Hc. by apply bool_decide_eq_true in Hl.
  - split; [by apply list_elem_of_In | by apply bool_decide_eq_true].
Qed.

Lemma check_for_connection_run genes w :
  check_for_connection genes w =
  if connected (deref w genes)
  then Ok tt w
  else Ok tt (set_heap
                (<[genes := deref w genes ++ ["tr_first_out"]]> (heap w)) w).
Proof.
  unfold check_for_connection. cbv zeta. rewrite outgoing_routes.
  unfold connected, outlet_routes. cbn [foldr existsb].
  rewrite !bind_run, !list_contains_run.
  repeat (destruct (bool_decide _); [reflexivity|];
          try rewrite !bind_run, !list_contains_run).
  reflexivity.
Qed.

(** C8. [check_for_connection] leaves a genotype alone when it holds a
    connection gene of the catalogue whose name contains "out", and appends
    exactly "tr_first_out" otherwise; running it twice is the same as running
    it once, and the genotype ["canopy", "lai"] holds "tr_first_out" after
    validation. *)
Theorem check_for_connection_repairs_once (w : world) (genes : loc) :
  let l := deref w genes in
  (has_outlet l -> check_for_connection genes w = Ok tt w)
  /\ (~ has_outlet l ->
      check_for_connection genes w =
      Ok tt (set_heap (<[genes := l ++ ["tr_first_out"]]> (heap w)) w))
  /\ (check_for_connection genes;; check_for_connection genes) w
     = check_for_connection genes w
  /\ (l = ["canopy"; "lai"] ->
      genes_after (check_for_connection genes w) genes
      = Some ["canopy"; "lai"; "tr_first_out"]).
Proof.
  intros l. subst l.
  assert (Hafter : connected (deref w genes ++ ["tr_first_out"]) = true).
  { apply connected_has_outlet, has_outlet_routes.
    exists "tr_first_out". unfold outlet_routes. set_solver. }
  repeat split.
  - intros H%connected_has_outlet.
    by rewrite check_for_connection_run, H.
  - intros H. rewrite check_for_connection_run.
    destruct (connected (deref w genes)) eqn:E; [|done].
    exfalso. apply H. by apply connected_has_outlet.
  - rewrite bind_run, check_for_connection_run.
    destruct (connected (deref w genes)) eqn:E.
    + by rewrite check_for_connection_run, E.
    + by rewrite check_for_connection_run, deref_set_heap_eq, Hafter.
  - intros E. rewrite check_for_connection_run, E. simpl.
    by rewrite deref_set_heap_eq.
Qed.

Lemma check_for_connection_repairs_once_witness :
  genes_after
    (check_for_connection 0
       (World {[0 := ["canopy"; "lai"]]} (fun _ => 0%N) 0 (fun _ => 0%N))) 0
  = Some ["canopy"; "lai"; "tr_first_out"].
Proof.
  apply (check_for_connection_repairs_once
           (World {[0 := ["canopy"; "lai"]]} (fun _ => 0%N) 0 (fun _ => 0%N)) 0).
  reflexivity.
Defined.

(** * The random module *)

(** The float nearest to 1/3 is 6004799503160661 / 2^54: a multiple of
    2^-53 is below it exactly when it is below the rational 1/3. *)
Lemma below_third (k : N) :
  Qltb (Z.of_N k # 2 ^ 53) (1 # 3)
  = Qltb (Z.of_N k # 2 ^ 53) (6004799503160661 # 2 ^ 54).
Proof.
  unfold Qltb, Qle_bool. cbn [Qnum Qden]. f_equal.
  apply eq_iff_eq_true. rewrite !Z.leb_le. lia.
Qed.

Lemma randbelow_run n w :
  random.randbelow n w
  = Ok (N.to_nat (draws w (cursor w) mod N.of_nat n)) (advance w).
Proof. reflexivity. Qed.

Lemma randbelow_lt n d : 0 < n -> N.to_nat (d mod N.of_nat n) < n.
Proof.
  intros Hn.
  assert (d mod N.of_nat n < N.of_nat n)%N by (apply N.mod_lt; lia).
  lia.
Qed.

Lemma randrange_run start stop w :
  start < stop ->
  exists k, random.randrange start stop w = Ok k (advance w)
            /\ start <= k < stop.
Proof.
  intros Hlt. unfold random.randrange.
  destruct (decide (start < stop)) as [_|]; [|done].
  rewrite bind_run, randbelow_run. eexists. split; [reflexivity|].
  assert (N.to_nat (draws w (cursor w) mod N.of_nat (stop - start))
          < stop - start) as Hk by (apply randbelow_lt; lia).
  revert Hk. generalize (N.to_nat (draws w (cursor w)
                                   mod N.of_nat (stop - start))). lia.
Qed.

Lemma randint_run a b w :
  a <= b ->
  exists k, random.randint a b w = Ok k (advance w) /\ a <= k <= b.
Proof.
  intros Hab. destruct (randrange_run a (b + 1) w) as (k & Hk & ?); [lia|].
  exists k. split; [done | lia].
Qed.

(** * Crossover *)

Lemma insert_by_perm h x l : insert_by h x l ≡ₚ x :: l.
Proof.
  induction l as [|y l IH]; simpl; [done|].
  destruct (h x <=? h y)%N; [done|].
  rewrite IH. apply Permutation_swap.
Qed.

Lemma list_of_set_perm h l :
  foldr (insert_by h) [] l ≡ₚ l.
Proof.
  induction l as [|x l IH]; simpl; [done|].
  by rewrite insert_by_perm, IH.
Qed.

(** C9. For every pair of parents and whatever the two split points drawn,
    [crossover] returns a list without duplicates whose genes all come from
    one of the parents. *)
Theorem crossover_subset_nodup (w : world) (first_parent second_parent : loc) :
  exists child w',
    crossover first_parent second_parent w = Ok child w'
    /\ NoDup (deref w' child)
    /\ forall gene, gene ∈ deref w' child ->
         gene ∈ deref w first_parent \/ gene ∈ deref w second_parent.
Proof.
  unfold crossover.
  destruct (randint_run 0 (length (deref w first_parent)) w)
    as (i & Hi & _); [lia|].
  destruct (randint_run 0 (length (deref w second_parent)) (advance w))
    as (j & Hj & _); [lia|].
  set (child := foldr (insert_by (str_hash w)) []
                  (remove_dups (take i (deref w first_parent)
                                ++ drop j (deref w second_parent)))).
  exists (fresh (dom (heap w))),
    (set_heap (<[fresh (dom (heap w)) := child]> (heap w))
              (advance (advance w))).
  split.
  { py_pure. py_run Hi. py_pure. py_run Hj. reflexivity. }
  replace (deref _ _) with child
    by (symmetry; unfold deref; simpl; apply lookup_total_insert_eq).
  subst child. split.
  - rewrite list_of_set_perm. apply NoDup_remove_dups.
  - intros gene. rewrite list_of_set_perm, elem_of_remove_dups, elem_of_app.
    intros [H|H]; [left|right].
    + by apply (subseteq_take i).
    + by apply (subseteq_drop j).
Qed.

Lemma choice_run l w :
  l <> [] ->
  exists x, random.choice (PyList l) w = Ok x (advance w) /\ x ∈ l.
Proof.
  intros Hl. unfold random.choice. do 2 py_pure.
  destruct (decide (length l = 0)) as [E|E].
  { destruct l; [done | discriminate]. }
  rewrite bind_run, randbelow_run.
  pose proof (randbelow_lt (length l) (draws w (cursor w))) as Hlt.
  destruct (lookup_lt_is_Some_2 l _ (Hlt ltac:(lia))) as [x Hx].
  exists x. rewrite Hx. split; [reflexivity|].
  by eapply list_elem_of_lookup_2.
Qed.

Lemma insert_swap_perm (l : list string) j x y :
  l !! j = Some y -> y :: <[j := x]> l ≡ₚ x :: l.
Proof.
  revert j. induction l as [|a l IH]; intros [|j] Hj; simplify_eq/=.
  - apply Permutation_swap.
  - rewrite (Permutation_swap a y), (IH j Hj). apply Permutation_swap.
Qed.

Lemma swap_items_perm l i j : random.swap_items l i j ≡ₚ l.
Proof.
  unfold random.swap_items.
  destruct (l !! i) as [x|] eqn:Hi; [|done].
  destruct (l !! j) as [y|] eqn:Hj; [|done].
  revert i j Hi Hj.
  induction l as [|a l IH]; intros [|i] [|j] Hi Hj; simplify_eq/=.
  - done.
  - by apply insert_swap_perm.
  - by apply insert_swap_perm.
  - constructor. by apply IH.
Qed.

Lemma shuffle_from_run i r w :
  exists w', random.shuffle_from i r w = Ok tt w' /\ permutes r w w'.
Proof.
  revert w. induction i as [|i IH]; intros w.
  - exists w. by split.
  - cbn [random.shuffle_from].
    rewrite bind_run, randbelow_run. py_pure.
    rewrite bind_run. cbn [write_list].
    match goal with |- context [random.shuffle_from i r ?w1] =>
      destruct (IH w1) as (w' & Hrun & Hperm & Hframe) end.
    exists w'. split; [exact Hrun|]. split.
    + rewrite Hperm, deref_set_heap_eq. apply swap_items_perm.
    + intros r' Hr'. rewrite (Hframe r' Hr'). simpl.
      by apply lookup_insert_ne.
Qed.

Lemma shuffle_run r w :
  exists w', random.shuffle r w = Ok tt w' /\ permutes r w w'.
Proof. unfold random.shuffle. py_pure. apply shuffle_from_run. Qed.

Lemma list_pop_run r w l x :
  deref w r = l ++ [x] ->
  list_pop r w = Ok x (set_heap (<[r := l]> (heap w)) w).
Proof.
  intros E. unfold list_pop. py_pure. rewrite E, last_snoc.
  rewrite bind_run. cbn [write_list]. by rewrite removelast_last.
Qed.

(** * Mutation *)

Lemma set_eqb_true a b :
  PyStr.set_eqb a b = true <-> forall x, x ∈ a <-> x ∈ b.
Proof.
  unfold PyStr.set_eqb.
  rewrite andb_true_iff, !forallb_forall. split.
  - intros [Hab Hba] x. split; intros Hx%list_elem_of_In.
    + exact (bool_decide_eq_true_1 _ (Hab x Hx)).
    + exact (bool_decide_eq_true_1 _ (Hba x Hx)).
  - intros H. split; intros x Hx%list_elem_of_In;
      apply bool_decide_eq_true_2, H, Hx.
Qed.

Lemma for_range_break n (body : Py flow) w w' :
  body w = Ok Break w' -> for_range (S n) body w = Ok tt w'.
Proof. intros H. cbn [for_range]. by py_run H. Qed.

Lemma universe_nonempty : LumpedCMFGenerator.gene_set <> [].
Proof. discriminate. Qed.

(** C10. On a duplicate-free genotype that holds exactly the genes of the
    universe, an "add" mutation removes one gene, so the genotype stays
    within the size of the universe; on an empty genotype a "del" mutation
    adds one gene of the universe, so the genotype is not empty afterwards. *)
Theorem mutate_fallbacks (fuel : nat) (genes : loc) (w : world) :
  (picks "add" w ->
   NoDup (deref w genes) ->
   (forall gene, gene ∈ deref w genes <-> gene ∈ LumpedCMFGenerator.gene_set) ->
   exists w',
     mutate fuel genes (PyList LumpedCMFGenerator.gene_set) w = Ok tt w'
     /\ S (length (deref w' genes)) = length (deref w genes)
     /\ length (deref w' genes) <= length LumpedCMFGenerator.gene_set)
  /\ (picks "del" w ->
      deref w genes = [] ->
      exists w' gene,
        mutate fuel genes (PyList LumpedCMFGenerator.gene_set) w = Ok tt w'
        /\ deref w' genes = [gene]
        /\ gene ∈ LumpedCMFGenerator.gene_set).
Proof.
  split.
  - intros Hpick Hnodup Hfull.
    destruct (randint_run 1 3 (advance w)) as (n & Hn & Hn1 & _); [lia|].
    destruct n as [|n]; [lia|].
    destruct (shuffle_run genes (advance (advance w)))
      as (w1 & Hshuffle & Hperm & _).
    change (deref (advance (advance w)) genes) with (deref w genes) in Hperm.
    assert (Hlen : length (deref w genes)
                   <= length LumpedCMFGenerator.gene_set).
    { apply submseteq_length, NoDup_submseteq; [done|]. intros x. apply Hfull. }
    assert (deref w1 genes <> []) as [a [l1 E1]%last_Some]%last_is_Some.
    { intros E. rewrite E in Hperm. apply Permutation_nil_l in Hperm.
      pose proof (proj2 (Hfull "snow")) as Hsnow. rewrite <- Hperm in Hsnow.
      eapply not_elem_of_nil, Hsnow. apply list_elem_of_here. }
    rewrite E1 in Hperm.
    eexists. split; [|split].
    + unfold mutate. py_run Hpick. cbn [String.eqb Ascii.eqb Bool.eqb].
      cbv zeta. py_run Hn.
      apply for_range_break.
      py_pure. py_pure.
      replace (PyStr.set_eqb _ _) with true
        by (symmetry; apply set_eqb_true, Hfull).
      py_run Hshuffle. erewrite bind_Ok by (by apply list_pop_run).
      reflexivity.
    + rewrite deref_set_heap_eq, <- Hperm, length_app. simpl. lia.
    + rewrite deref_set_heap_eq.
      apply Permutation_length in Hperm. rewrite length_app in Hperm.
      simpl in Hperm. lia.
  - intros Hpick Hempty.
    destruct (randint_run 1 3 (advance w)) as (n & Hn & Hn1 & _); [lia|].
    destruct n as [|n]; [lia|].
    destruct (choice_run LumpedCMFGenerator.gene_set (advance (advance w))
                universe_nonempty) as (gene & Hgene & Hin).
    eexists _, gene. split; [|split; [|exact Hin]].
    + unfold mutate. py_run Hpick. cbn [String.eqb Ascii.eqb Bool.eqb].
      cbv zeta. py_run Hn.
      apply for_range_break.
      py_pure. change (deref (advance (advance w)) genes) with (deref w genes).
      rewrite Hempty. cbn [length Nat.eqb].
      py_run Hgene. py_pure. reflexivity.
    + rewrite deref_set_heap_eq. change (deref (advance _) genes)
        with (deref w genes). by rewrite Hempty.
Qed.

Lemma mutate_fallbacks_witness :
  (exists w',
     mutate 1 0 (PyList LumpedCMFGenerator.gene_set) world_full = Ok tt w'
     /\ S (length (deref w' 0)) = length (deref world_full 0)
     /\ length (deref w' 0) <= length LumpedCMFGenerator.gene_set)
  /\ (exists w' gene,
        mutate 1 0 (PyList LumpedCMFGenerator.gene_set) world_empty = Ok tt w'
        /\ deref w' 0 = [gene]
        /\ gene ∈ LumpedCMFGenerator.gene_set).
Proof.
  split.
  - apply (proj1 (mutate_fallbacks 1 0 world_full)).
    + reflexivity.
    + apply (bool_decide_unpack _). vm_compute. exact I.
    + intros gene. reflexivity.
  - apply (proj2 (mutate_fallbacks 1 0 world_empty)); reflexivity.
Defined.

Lemma for_range_inv (I : world -> Prop) (body : Py flow) n w :
  (forall w, I w -> exists c w', body w = Ok c w' /\ I w') ->
  I w -> exists w', for_range n body w = Ok tt w' /\ I w'.
Proof.
  intros Hbody. revert w. induction n as [|n IH]; intros w Hw.
  - exists w. by split.
  - destruct (Hbody w Hw) as (c & w1 & Hrun & Hw1).
    cbn [for_range]. py_run Hrun. destruct c.
    + by apply IH.
    + exists w1. by split.
Qed.

Lemma for_range_raise n (body : Py flow) w e w' :
  body w = Raise e w' -> for_range (S n) body w = Raise e w'.
Proof. intros H. cbn [for_range]. by apply bind_Raise. Qed.

Lemma sample2_run l w :
  2 <= length l ->
  exists a b, random.sample2 (PyList l) w = Ok (a, b) (advance (advance w)).
Proof.
  intros Hl. unfold random.sample2. do 2 py_pure.
  destruct (decide (2 <= length l)); [|done].
  rewrite bind_run, randbelow_run, bind_run, randbelow_run.
  by eexists _, _.
Qed.

Lemma new_list_run l w :
  new_list l w
  = Ok (fresh (dom (heap w)))
       (set_heap (<[fresh (dom (heap w)) := l]> (heap w)) w).
Proof. reflexivity. Qed.

Lemma fresh_ne_live (w : world) (r : loc) l :
  heap w !! r = Some l -> fresh (dom (heap w)) <> r.
Proof.
  intros Hr E. apply (is_fresh (dom (heap w))). rewrite E.
  apply elem_of_dom. eauto.
Qed.

Lemma deref_live w r l : heap w !! r = Some l -> deref w r = l.
Proof. apply lookup_total_correct. Qed.

(** One repetition of the swap branch: the replacement is written to the
    copy, the list behind [genes] stays as it was. *)
Lemma swap_repetition genes universe l w :
  l <> [] -> 2 <= length universe ->
  heap w !! genes = Some l ->
  exists w',
    (initial_genes ← (l ← read_list genes; new_list l);
     len ← list_len genes;
     index ← random.randrange 0 len;
     sampled ← random.sample2 (PyList universe);
     let '(new_gene, alternate) := sampled in
     current ← list_getitem initial_genes index;
     list_setitem initial_genes index
       (if String.eqb new_gene current then alternate else new_gene);;
     mret Next) w = Ok Next w'
    /\ heap w' !! genes = Some l.
Proof.
  intros Hne Huni Hlive.
  pose proof (fresh_ne_live w genes l Hlive) as Hfresh.
  set (copy := fresh (dom (heap w))) in *.
  set (w1 := set_heap (<[copy := l]> (heap w)) w).
  assert (Hlen : length l > 0) by (destruct l; [done | simpl; lia]).
  destruct (randrange_run 0 (length l) w1) as (index & Hindex & _ & Hlt);
    [lia|].
  destruct (sample2_run universe (advance w1) Huni) as (a & b & Hsample).
  destruct (lookup_lt_is_Some_2 l index Hlt) as [current Hcurrent].
  eexists. split.
  - erewrite bind_Ok; cycle 1.
    { py_pure. rewrite (deref_live _ _ _ Hlive). apply new_list_run. }
    fold copy. fold w1.
    assert (deref w1 genes = l) as Hg.
    { unfold w1. rewrite deref_set_heap_ne by done. by apply deref_live. }
    py_pure. rewrite Hg. py_run Hindex. py_run Hsample. cbv beta iota.
    assert (deref (advance (advance (advance w1))) copy = l) as Hc.
    { unfold w1. apply deref_set_heap_eq. }
    erewrite bind_Ok; cycle 1.
    { unfold list_getitem. py_pure. rewrite Hc, Hcurrent. reflexivity. }
    erewrite bind_Ok; cycle 1.
    { unfold list_setitem. py_pure. rewrite Hc.
      destruct (decide (index < length l)); [|done]. reflexivity. }
    reflexivity.
  - simpl. rewrite !lookup_insert_ne by done. exact Hlive.
Qed.

(** C2 (what the code does). When the swap kind is selected on a non-empty
    genotype, [mutate] returns and the list behind [genes] is what it was:
    every replacement went to a copy that nothing reads afterwards. *)
Theorem mutate_swap_leaves_genes (fuel : nat) (genes : loc) (w : world)
    (l universe : list string) :
  picks "swap" w ->
  heap w !! genes = Some l ->
  l <> [] -> 2 <= length universe ->
  exists w', mutate fuel genes (PyList universe) w = Ok tt w'
             /\ heap w' !! genes = Some l.
Proof.
  intros Hpick Hlive Hne Huni.
  destruct (randint_run 1 3 (advance w)) as (n & Hn & _); [lia|].
  unfold mutate. py_run Hpick. cbn [String.eqb Ascii.eqb Bool.eqb].
  cbv zeta. py_run Hn.
  apply (for_range_inv (fun w => heap w !! genes = Some l)); [|exact Hlive].
  intros w1 Hw1. exists Next.
  by apply swap_repetition.
Qed.

Lemma mutate_swap_leaves_genes_witness :
  exists w',
    mutate 0 0 (PyList LumpedCMFGenerator.gene_set)
      (world_of ["snow"] [2; 0; 0; 1]%N) = Ok tt w'
    /\ heap w' !! 0 = Some ["snow"].
Proof.
  apply (mutate_swap_leaves_genes 0 0 (world_of ["snow"] [2; 0; 0; 1]%N)).
  - reflexivity.
  - reflexivity.
  - discriminate.
  - simpl. lia.
Defined.

(** The same run, list by list: the genotype keeps "snow", the copy made by
    [genes[:]] received "canopy". *)
Example mutate_swap_writes_the_copy :
  let o := mutate 0 0 (PyList LumpedCMFGenerator.gene_set)
             (world_of ["snow"] [2; 0; 0; 1]%N) in
  genes_after o 0 = Some ["snow"] /\ genes_after o 1 = Some ["canopy"].
Proof. vm_compute. done. Qed.

(** C3 (what the code does). The helper [fn_mutate] of [solve] hands
    [mutate] the function [fn_get_fitness] where the gene universe is
    expected: when the add kind is selected, [set(gene_set)] raises
    [TypeError] and no gene is sampled. *)
Theorem fn_mutate_add_raises (fuel : nat) (genes : loc) (w : world) :
  picks "add" w ->
  solve.fn_mutate fuel genes w = Raise TypeError (advance (advance w)).
Proof.
  intros Hpick.
  destruct (randint_run 1 3 (advance w)) as (n & Hn & Hn1 & _); [lia|].
  destruct n as [|n]; [lia|].
  unfold solve.fn_mutate, mutate. py_run Hpick.
  cbn [String.eqb Ascii.eqb Bool.eqb]. cbv zeta. py_run Hn.
  apply for_range_raise. py_pure. by apply bind_Raise.
Qed.

Lemma fn_mutate_add_raises_witness :
  solve.fn_mutate 1 0 (world_of ["snow"] [0; 0; 1]%N)
  = Raise TypeError (advance (advance (world_of ["snow"] [0; 0; 1]%N))).
Proof. apply fn_mutate_add_raises. reflexivity. Defined.

(** In the same state, [mutate] with the gene universe appends a gene. *)
Example mutate_add_with_universe :
  genes_after (mutate 1 0 (PyList LumpedCMFGenerator.gene_set)
                 (world_of ["snow"] [0; 0; 1]%N)) 0
  = Some ["snow"; "canopy"].
Proof. vm_compute. done. Qed.

(** * Creation *)

Section Appends.

Context (r : loc) (allowed : list string).

Lemma appends_ret {A} (a : A) : appends_to r allowed (mret a).
Proof.
  intros w a' w' [_ ->]%ret_Ok_inv. exists []. rewrite app_nil_r.
  split; [done | apply list_subseteq_nil].
Qed.

Lemma appends_bind {A B} (m : Py A) (f : A -> Py B) :
  appends_to r allowed m ->
  (forall a, appends_to r allowed (f a)) ->
  appends_to r allowed (m ≫= f).
Proof.
  intros Hm Hf w b w' (a & w1 & H1 & H2)%bind_Ok_inv.
  destruct (Hm _ _ _ H1) as (s1 & E1 & Hs1).
  destruct (Hf a _ _ _ H2) as (s2 & E2 & Hs2).
  exists (s1 ++ s2). rewrite E2, E1, (assoc_L (++)).
  split; [done|]. intros x [?|?]%elem_of_app; auto.
Qed.

Lemma appends_append x : x ∈ allowed -> appends_to r allowed (list_append r x).
Proof.
  intros Hx w a w'. rewrite list_append_run. intros [= _ <-].
  exists [x]. rewrite deref_set_heap_eq. split; [done|].
  by intros y ->%list_elem_of_singleton.
Qed.

Lemma appends_contains x : appends_to r allowed (list_contains x r).
Proof.
  intros w a w'. rewrite list_contains_run. intros [= _ <-].
  exists []. rewrite app_nil_r. split; [done | apply list_subseteq_nil].
Qed.

Lemma appends_random : appends_to r allowed random.random.
Proof.
  intros w a w' H. injection H as _ <-. exists []. rewrite app_nil_r.
  split; [done | apply list_subseteq_nil].
Qed.

Lemma appends_when b (m : Py unit) :
  appends_to r allowed m -> appends_to r allowed (when b m).
Proof. destruct b; [done | intros _; apply appends_ret]. Qed.

Lemma appends_if_below threshold (m : Py unit) :
  appends_to r allowed m -> appends_to r allowed (if_below threshold m).
Proof.
  intros Hm. apply appends_bind; [apply appends_random|].
  intros x. by apply appends_when.
Qed.

Lemma appends_while fuel (cond : Py bool) (body : Py unit) :
  appends_to r allowed cond -> appends_to r allowed body ->
  appends_to r allowed (while_ fuel cond body).
Proof.
  intros Hcond Hbody. induction fuel as [|fuel IH]; [done|].
  cbn [while_]. apply appends_bind; [done|]. intros [|].
  - apply appends_bind; [done|]. intros _. exact IH.
  - apply appends_ret.
Qed.

End Appends.

(** Membership in a list of literals. *)
Ltac in_literals := apply (bool_decide_unpack _); vm_compute; exact I.

Ltac out_of_literals H :=
  apply (bool_decide_pack _) in H; vm_compute in H; destruct H.

(** Breaks a statement into its parts until only appends are left. *)
Ltac appends :=
  repeat first
    [ apply appends_ret
    | apply appends_random
    | apply appends_contains
    | apply appends_append; in_literals
    | apply appends_if_below
    | apply appends_when
    | apply appends_while
    | apply appends_bind; [|intros ?] ].

(** From a run [H] of a statement: what it appended to the list behind [r]. *)
Tactic Notation "appended" hyp(H) constr(r) constr(allowed)
    simple_intropattern(s) simple_intropattern(E) simple_intropattern(Hs) :=
  lazymatch type of H with
  | ?m ?w = Ok ?a ?w' =>
      let G := fresh in
      assert (appends_to r allowed m) as G by appends;
      destruct (G _ _ _ H) as (s & E & Hs); clear G
  end.

Lemma guarded_run x r (m : Py unit) w u w' :
  (has ← list_contains x r; when has m) w = Ok u w' ->
  if bool_decide (x ∈ deref w r) then m w = Ok u w' else w' = w.
Proof.
  rewrite bind_run, list_contains_run.
  destruct (bool_decide _); [done|]. by intros [_ ->]%ret_Ok_inv.
Qed.

Lemma while_exit fuel (cond : Py bool) (body : Py unit) w u w' :
  while_ fuel cond body w = Ok u w' -> exists w1, cond w1 = Ok false w'.
Proof.
  revert w. induction fuel as [|fuel IH]; intros w; [discriminate|].
  cbn [while_]. intros ([|] & w1 & Hcond & H)%bind_Ok_inv.
  - apply bind_Ok_inv in H as (? & w2 & _ & H). by eapply IH.
  - apply ret_Ok_inv in H as [_ ->]. eauto.
Qed.

(** A genotype returned by [create] has both connection genes of the second
    layer when it has the layer, and the connection gene of the third layer
    when it has that one. *)
Lemma create_layers_connected fuel w genes w' :
  create fuel w = Ok genes w' ->
  let l := deref w' genes in
  ("second_layer" ∈ l -> "tr_second_third" ∈ l /\ "tr_second_river" ∈ l)
  /\ ("third_layer" ∈ l -> "tr_third_river" ∈ l).
Proof.
  unfold create. cbv zeta.
  intros (g & w0 & _ & H)%bind_Ok_inv.
  do 7 (apply bind_Ok_inv in H as (? & ? & _ & H)).
  apply bind_Ok_inv in H as (? & w2 & Hsecond & H).
  apply bind_Ok_inv in H as (? & w3 & Hthird & H).
  apply bind_Ok_inv in H as (? & w4 & Hriver & H).
  apply ret_Ok_inv in H as [-> ->].
  rename x12 into w1.
  appended Hsecond g
    ["tr_second_third"; "beta_second_third";
     "tr_second_river"; "beta_second_river"] s2 E2 Hs2.
  appended Hthird g ["tr_third_river"; "beta_third_river"] s3 E3 Hs3.
  appended Hriver g ["beta_river_out"] s4 E4 Hs4.
  apply guarded_run in Hsecond, Hthird. clear Hriver.
  split.
  - (* the loop is left only with both connection genes present *)
    intros Hin. rewrite E4, E3 in Hin.
    assert ("second_layer" ∈ deref w2 g) as Hin2.
    { apply elem_of_app in Hin as [[Hin|Hin]%elem_of_app|Hin]; [done|..].
      - apply Hs3 in Hin. out_of_literals Hin.
      - apply Hs4 in Hin. out_of_literals Hin. }
    assert ("second_layer" ∈ deref w1 g) as Hin1.
    { rewrite E2 in Hin2. apply elem_of_app in Hin2 as [Hin2|Hin2]; [done|].
      apply Hs2 in Hin2. out_of_literals Hin2. }
    rewrite (bool_decide_eq_true_2 _ Hin1) in Hsecond.
    apply while_exit in Hsecond as (wx & Hexit).
    rewrite bind_run, list_contains_run, bind_run, list_contains_run in Hexit.
    injection Hexit as Hboth ->.
    apply orb_false_elim in Hboth as [H3%negb_false_iff H4%negb_false_iff].
    apply bool_decide_eq_true_1 in H3, H4.
    rewrite E4, E3, !elem_of_app. tauto.
  - intros Hin. rewrite E4 in Hin.
    assert ("third_layer" ∈ deref w2 g) as Hin2.
    { rewrite E3 in Hin.
      apply elem_of_app in Hin as [[Hin|Hin]%elem_of_app|Hin]; [done|..].
      - apply Hs3 in Hin. out_of_literals Hin.
      - apply Hs4 in Hin. out_of_literals Hin. }
    rewrite (bool_decide_eq_true_2 _ Hin2) in Hthird.
    apply bind_Ok_inv in Hthird as (? & wa & Happend & Hbeta).
    rewrite list_append_run in Happend. injection Happend as _ <-.
    appended Hbeta g ["beta_third_river"] s5 E5 Hs5.
    rewrite deref_set_heap_eq in E5.
    rewrite E4, E5, !elem_of_app, list_elem_of_singleton. tauto.
Qed.

Lemma validated_create_inv fuel w l :
  genes_returned (validated_create fuel w) = Some l ->
  exists genes w1 suffix,
    create fuel w = Ok genes w1
    /\ l = deref w1 genes ++ suffix
    /\ suffix ⊆ ["tr_first_out"]
    /\ has_outlet l.
Proof.
  destruct (validated_create fuel w) as [genes w'| |] eqn:Hrun;
    [|discriminate..].
  intros [= <-]. unfold validated_create in Hrun.
  apply bind_Ok_inv in Hrun as (g & w1 & Hcreate & Hrun).
  apply bind_Ok_inv in Hrun as (? & w2 & Hcheck & Hrun).
  apply ret_Ok_inv in Hrun as [-> ->].
  exists g, w1. rewrite check_for_connection_run in Hcheck.
  destruct (connected (deref w1 g)) eqn:Hconn.
  - injection Hcheck as _ <-. exists []. rewrite app_nil_r.
    repeat split; [done | apply list_subseteq_nil |].
    by apply connected_has_outlet.
  - injection Hcheck as _ <-. exists ["tr_first_out"].
    rewrite deref_set_heap_eq. repeat split; [done..|].
    apply has_outlet_routes. exists "tr_first_out".
    split; [in_literals|]. apply elem_of_app. right. apply list_elem_of_here.
Qed.

(** C7 (amended). A genotype produced by [create] and passed through
    [check_for_connection] holds "tr_second_third" or "tr_second_river" when
    it holds the second layer, holds "tr_third_river" when it holds the third
    layer, and holds a connection gene of the catalogue whose name contains
    the outlet marker; so each of the two layers that is present has a
    connection gene out of it. *)
Theorem validated_create_connected (fuel : nat) (w : world) (l : list string) :
  genes_returned (validated_create fuel w) = Some l ->
  ("second_layer" ∈ l -> "tr_second_third" ∈ l \/ "tr_second_river" ∈ l)
  /\ ("third_layer" ∈ l -> "tr_third_river" ∈ l)
  /\ has_outlet l
  /\ storages_drain ["second_layer"; "third_layer"] l.
Proof.
  intros (genes & w1 & suffix & Hcreate & -> & Hsuffix & Hout)
    %validated_create_inv.
  destruct (create_layers_connected _ _ _ _ Hcreate) as [Hsecond Hthird].
  assert (forall storage,
            storage ∈ ["second_layer"; "third_layer"] ->
            storage ∈ deref w1 genes ++ suffix ->
            storage ∈ deref w1 genes) as Hcreated.
  { intros storage Hstorage [Hin|Hin]%elem_of_app; [done|].
    apply Hsuffix, list_elem_of_singleton in Hin as ->.
    out_of_literals Hstorage. }
  assert ("second_layer" ∈ deref w1 genes ++ suffix ->
          "tr_second_third" ∈ deref w1 genes ++ suffix) as Hsecond'.
  { intros Hin. apply elem_of_app. left.
    apply Hsecond, Hcreated; [in_literals | done]. }
  assert ("third_layer" ∈ deref w1 genes ++ suffix ->
          "tr_third_river" ∈ deref w1 genes ++ suffix) as Hthird'.
  { intros Hin. apply elem_of_app. left.
    apply Hthird, Hcreated; [in_literals | done]. }
  split; [auto|]. split; [done|]. split; [done|].
  intros storage Hstorage Hin.
  apply elem_of_cons in Hstorage as [->|Hstorage].
  - exists "tr_second_third". split; [auto | reflexivity].
  - apply list_elem_of_singleton in Hstorage as ->.
    exists "tr_third_river". split; [auto | reflexivity].
Qed.

Lemma validated_create_connected_witness :
  let l := ["second_layer"; "third_layer"; "tr_second_third";
            "tr_second_river"; "tr_third_river"; "tr_first_out"] in
  ("second_layer" ∈ l -> "tr_second_third" ∈ l \/ "tr_second_river" ∈ l)
  /\ ("third_layer" ∈ l -> "tr_third_river" ∈ l)
  /\ has_outlet l
  /\ storages_drain ["second_layer"; "third_layer"] l.
Proof.
  apply (validated_create_connected 2
           (drawing [no; no; yes; yes; no; no; no; no; yes; no; yes; no; no])).
  reflexivity.
Defined.

(** C7 (as stated, refuted). With only the river drawn, the validated
    genotype is ["river", "tr_first_out"]: the river is present and no
    connection gene out of the river is. *)
Lemma validated_create_river_undrained :
  genes_returned
    (validated_create 0 (drawing [no; no; no; yes; no; no; no; no]))
  = Some ["river"; "tr_first_out"]
  /\ ~ storages_drain LumpedCMFGenerator.storages ["river"; "tr_first_out"].
Proof.
  split; [reflexivity|].
  intros H. destruct (H "river") as (c & Hc & Hdrains).
  - in_literals.
  - in_literals.
  - apply elem_of_cons in Hc as [->|Hc]; [discriminate|].
    apply list_elem_of_singleton in Hc as ->. discriminate.
Qed.

Lemma while_spins (I : world -> Prop) fuel (cond : Py bool) (body : Py unit) w :
  (forall w, I w -> cond w = Ok true w) ->
  (forall w, I w -> exists w', body w = Ok tt w' /\ I w') ->
  I w -> while_ fuel cond body w = Spin.
Proof.
  intros Hcond Hbody. revert w. induction fuel as [|fuel IH]; intros w Hw.
  - reflexivity.
  - cbn [while_]. py_run (Hcond w Hw).
    destruct (Hbody w Hw) as (w' & Hrun & Hw'). py_run Hrun. by apply IH.
Qed.

Lemma failed_roll (body : Py unit) w :
  draws w (cursor w) = no -> if_below (1 # 3) body w = Ok tt (advance w).
Proof.
  intros Hno. unfold if_below, random.random.
  rewrite !bind_run. cbn [random.next_draw]. by rewrite Hno.
Qed.

(** C5 (what the code does). With the second layer drawn, "tr_second_third"
    set by the first trial and every later roll failing, [create] never
    leaves the second-layer loop, whatever the budget of iterations: the
    trials go on while one of the two connection genes is present. *)
Theorem create_retries_with_one_connection (fuel : nat) :
  create fuel (rolling [2; 8]) = Spin.
Proof.
  unfold create. cbv zeta. do 8 py_eval.
  apply bind_Spin. py_eval. cbn [when].
  destruct fuel as [|fuel]; [reflexivity|].
  cbn [while_]. py_eval. cbv beta iota. py_eval.
  apply (while_spins
           (fun w => deref w 0 = ["second_layer"; "tr_second_third"]
                     /\ (forall i, 11 <= i -> draws w i = no)
                     /\ 11 <= cursor w)).
  - intros w [Hgenes _].
    rewrite bind_run, list_contains_run, bind_run, list_contains_run, Hgenes.
    reflexivity.
  - intros w (Hgenes & Hdraws & Hcursor).
    exists (advance (advance w)). split.
    + py_run (failed_roll
                (list_append 0 "tr_second_third";;
                 if_below (1 # 3) (list_append 0 "beta_second_third")) w
                (Hdraws _ Hcursor)).
      apply failed_roll. apply Hdraws. simpl. lia.
    + repeat split; [done..|]. simpl. lia.
  - repeat split; [|simpl; lia].
    intros i Hi. do 11 (destruct i as [|i]; [lia|]). reflexivity.
Qed.

(** The same draws with the river connection set in a second trial: the
    second trial ran with "tr_second_third" present and appended it again. *)
Example create_second_trial :
  genes_returned (create 3 (rolling [2; 8; 11; 13]))
  = Some ["second_layer"; "tr_second_third"; "tr_second_third";
          "tr_second_river"].
Proof. vm_compute. reflexivity. Qed.

(** C6 (what the code does). [create] returns a genotype that repeats
    "tr_second_third" and that holds "tr_first_second", which the gene
    universe does not list. *)
Theorem create_returns_ill_formed :
  let l := ["second_layer"; "tr_first_second"; "tr_second_third";
            "tr_second_third"; "tr_second_river"] in
  genes_returned (create 3 (rolling [2; 5; 10; 13; 15])) = Some l
  /\ ~ NoDup l
  /\ "tr_first_second" ∈ l
  /\ "tr_first_second" ∉ LumpedCMFGenerator.gene_set.
Proof.
  cbv zeta. split; [vm_compute; reflexivity|]. split; [|split].
  - intros H. apply (bool_decide_pack _) in H. vm_compute in H. destruct H.
  - in_literals.
  - intros H. out_of_literals H.
Qed.

(** The genes [create] writes that the gene universe does not list. *)
Example create_tokens_outside_universe :
  Forall (fun gene => gene ∉ LumpedCMFGenerator.gene_set)
         ["tr_first_second"; "tr_second_river"; "tr_third_river"].
Proof. repeat constructor; intros H; out_of_literals H. Qed.

(** * The wait loop of [solve] *)

(** C4 (what the code does). The loop at the end of [solve] spins for good
    when the best fitness has reached or exceeded the target, and is left at
    its first test when the best fitness is below the target. *)
Theorem wait_loop_exits_below_target (optimal_fitness best_fitness : Q)
    (w : world) :
  ((optimal_fitness <= best_fitness)%Q ->
   forall fuel, solve.wait_loop fuel optimal_fitness best_fitness w = Spin)
  /\ ((best_fitness < optimal_fitness)%Q ->
      forall fuel,
        solve.wait_loop (S fuel) optimal_fitness best_fitness w = Ok tt w).
Proof.
  unfold solve.wait_loop, Qltb. rewrite negb_involutive. split.
  - intros Hle%Qle_bool_iff fuel. rewrite Hle.
    apply (while_spins (fun _ => True)); [done | by eexists | done].
  - intros Hlt fuel.
    destruct (Qle_bool optimal_fitness best_fitness) eqn:Hle; [|done].
    apply Qle_bool_iff in Hle. by apply Qle_not_lt in Hle.
Qed.

Lemma wait_loop_exits_below_target_witness :
  (forall fuel, solve.wait_loop fuel 1 2 (drawing []) = Spin)
  /\ (forall fuel, solve.wait_loop (S fuel) 1 0 (drawing []) = Ok tt (drawing [])).
Proof.
  split.
  - apply (proj1 (wait_loop_exits_below_target 1 2 (drawing []))). discriminate.
  - apply (proj2 (wait_loop_exits_below_target 1 0 (drawing []))). reflexivity.
Defined.

(** * The fitness cache *)

Lemma string_app_assoc (a b c : string) :
  ((a ++ b) ++ c = a ++ (b ++ c))%string.
Proof.
  induction a as [|x a IH]; [done|].
  change (String x ((a ++ b) ++ c) = String x (a ++ (b ++ c)))%string.
  by rewrite IH.
Qed.

Lemma string_app_nil_r (a : string) : (a ++ "")%string = a.
Proof.
  induction a as [|x a IH]; [done|].
  change (String x (a ++ "")%string = String x a). by rewrite IH.
Qed.

Lemma token_ok_inv s :
  token_ok s = true ->
  s <> ""
  /\ forallb (fun c => negb (PyStr.isspace c)) (list_ascii_of_string s) = true.
Proof.
  unfold token_ok. intros [Hne Hall]%andb_true_iff. split; [|done].
  intros ->. discriminate.
Qed.

(** Reading a run of non-whitespace characters extends the current run. *)
Lemma split_from_word cur word rest :
  forallb (fun c => negb (PyStr.isspace c)) (list_ascii_of_string word) = true ->
  PyStr.split_from cur (word ++ rest)
  = PyStr.split_from (cur ++ word) rest.
Proof.
  revert cur. induction word as [|c word IH]; intros cur Hword.
  - change ("" ++ rest)%string with rest. by rewrite string_app_nil_r.
  - simpl in Hword. apply andb_true_iff in Hword as [Hc Hword].
    apply negb_true_iff in Hc.
    change (String c word ++ rest)%string with (String c (word ++ rest)).
    cbn [PyStr.split_from]. rewrite Hc, (IH _ Hword).
    by rewrite string_app_assoc.
Qed.

Lemma eqb_empty_false s : s <> "" -> String.eqb s "" = false.
Proof. intros H. by apply String.eqb_neq. Qed.

Lemma split_join genes :
  Forall (fun gene => token_ok gene = true) genes ->
  PyStr.split (PyStr.join " " genes) = genes.
Proof.
  unfold PyStr.split.
  induction 1 as [|gene rest [Hne Hword]%token_ok_inv Hrest IH]; [done|].
  destruct rest as [|next rest].
  - simpl. rewrite <- (string_app_nil_r gene) at 1.
    rewrite split_from_word by done. simpl.
    by rewrite eqb_empty_false.
  - change (PyStr.join " " (gene :: next :: rest))
      with (gene ++ " " ++ PyStr.join " " (next :: rest))%string.
    rewrite split_from_word by done.
    change ("" ++ gene)%string with gene.
    change (" " ++ PyStr.join " " (next :: rest))%string
      with (String " " (PyStr.join " " (next :: rest))).
    cbn [PyStr.split_from].
    change (PyStr.isspace " ") with true. cbv iota.
    by rewrite eqb_empty_false, IH.
Qed.

Lemma set_eqb_refl l : PyStr.set_eqb l l = true.
Proof. by apply set_eqb_true. Qed.

Lemma set_eqb_same_genes a genes genes' :
  (forall gene, gene ∈ genes <-> gene ∈ genes') ->
  PyStr.set_eqb a genes = PyStr.set_eqb a genes'.
Proof.
  intros Hsame. apply eq_iff_eq_true. rewrite !set_eqb_true.
  split; intros H x; [rewrite <- Hsame | rewrite Hsame]; apply H.
Qed.

Section FitnessCache.

Context {Fit Data ObjFunc Model : Type}.
Context (LumpedModelCMF : list string -> Data -> ObjFunc -> Model).
Context (data : Data) (obj_func : ObjFunc) (algorithm : Algorithm Fit Model).

Local Abbreviation fitness_of genes st :=
  (get_fitness Fit Data ObjFunc Model LumpedModelCMF
     genes data obj_func algorithm st).
Local Abbreviation evaluated population st :=
  (evaluate_all Fit Data ObjFunc Model LumpedModelCMF
     population data obj_func algorithm st).

Lemma cached_same_genes (items : PyDict.t Fit) genes genes' :
  (forall gene, gene ∈ genes <-> gene ∈ genes') ->
  cached Fit items genes' = cached Fit items genes.
Proof.
  intros Hsame. induction items as [|[old_model fitness] items IH]; [done|].
  simpl. by rewrite (set_eqb_same_genes _ _ _ Hsame), IH.
Qed.

(** A genotype the cache misses is stored under a key of its own. *)
Lemma set_missed (items : PyDict.t Fit) genes fitness :
  Forall (fun gene => token_ok gene = true) genes ->
  cached Fit items genes = None ->
  PyDict.set (PyStr.join " " genes) fitness items
  = items ++ [(PyStr.join " " genes, fitness)].
Proof.
  intros Hok. induction items as [|[old_model v] items IH]; [done|].
  simpl. destruct (PyStr.set_eqb _ _) eqn:Hset; [done|]. intros Hmiss.
  destruct (String.eqb_spec old_model (PyStr.join " " genes)) as [->|_].
  - by rewrite split_join, set_eqb_refl in Hset.
  - by rewrite IH.
Qed.

Lemma cached_app (items : PyDict.t Fit) key fitness genes :
  cached Fit (items ++ [(key, fitness)]) genes
  = match cached Fit items genes with
    | Some v => Some v
    | None => if PyStr.set_eqb (PyStr.split key) genes
              then Some fitness else None
    end.
Proof.
  induction items as [|[old_model v] items IH]; [done|].
  simpl. by destruct (PyStr.set_eqb (PyStr.split old_model) genes).
Qed.

(** What [get_fitness] returns is what the cache holds afterwards. *)
Lemma get_fitness_stores genes st :
  Forall (fun gene => token_ok gene = true) genes ->
  cached Fit (models_so_far (fitness_of genes st).2) genes
  = Some (fitness_of genes st).1.
Proof.
  intros Hok. unfold get_fitness.
  destruct (cached Fit (models_so_far st) genes) as [v|] eqn:Hc; [done|].
  simpl. rewrite set_missed, cached_app, Hc by done.
  by rewrite split_join, set_eqb_refl.
Qed.

(** A later evaluation changes no answer the cache already gives. *)
Lemma get_fitness_keeps genes st other fitness :
  Forall (fun gene => token_ok gene = true) other ->
  cached Fit (models_so_far st) genes = Some fitness ->
  cached Fit (models_so_far (fitness_of other st).2) genes = Some fitness.
Proof.
  intros Hok Hhit. unfold get_fitness.
  destruct (cached Fit (models_so_far st) other) as [v|] eqn:Hc; [done|].
  simpl. by rewrite set_missed, cached_app, Hhit.
Qed.

Lemma evaluate_all_keeps population genes st fitness :
  Forall (Forall (fun gene => token_ok gene = true)) population ->
  cached Fit (models_so_far st) genes = Some fitness ->
  cached Fit (models_so_far (evaluated population st)) genes = Some fitness.
Proof.
  intros Hok. revert st.
  induction Hok as [|other population Hother _ IH]; intros st Hhit; [done|].
  simpl. by apply IH, get_fitness_keeps.
Qed.

(** A fitness the scan finds is the value of an entry whose key splits into
    the genes asked for. *)
Lemma cached_Some_entry (items : PyDict.t Fit) genes fitness :
  cached Fit items genes = Some fitness ->
  exists i key,
    items !! i = Some (key, fitness)
    /\ forall gene, gene ∈ PyStr.split key <-> gene ∈ genes.
Proof.
  induction items as [|[old_model v] items IH]; [discriminate|].
  simpl. destruct (PyStr.set_eqb (PyStr.split old_model) genes) eqn:Hset.
  - intros [= ->]. exists 0, old_model. split; [done|].
    by apply set_eqb_true.
  - intros (i & key & Hi & Hkey)%IH. by exists (S i), key.
Qed.

(** C1. Once a genotype has been evaluated, [get_fitness] answers every
    genotype with the same genes, in whatever order, with the fitness it
    returned then, whatever was evaluated in between and whatever forcing
    data, objective function and sampler the later call names: that fitness
    is the value the cache holds under a key that splits into those genes,
    and the call leaves the cache and the count of calibration runs as they
    are. *)
Theorem get_fitness_cache_hit (st : fitness_state Fit)
    (genes genes' : list string) (population : list (list string))
    (data' : Data) (obj_func' : ObjFunc) (algorithm' : Algorithm Fit Model) :
  Forall (fun gene => token_ok gene = true) genes ->
  Forall (Forall (fun gene => token_ok gene = true)) population ->
  (forall gene, gene ∈ genes <-> gene ∈ genes') ->
  let first := fitness_of genes st in
  let later := evaluated population first.2 in
  get_fitness Fit Data ObjFunc Model LumpedModelCMF
    genes' data' obj_func' algorithm' later = (first.1, later)
  /\ exists i key,
       models_so_far later !! i = Some (key, first.1)
       /\ forall gene, gene ∈ PyStr.split key <-> gene ∈ genes'.
Proof.
  intros Hok Hpop Hsame first later.
  assert (cached Fit (models_so_far later) genes' = Some first.1) as Hhit.
  { rewrite (cached_same_genes _ genes genes' Hsame).
    apply evaluate_all_keeps; [done|]. by apply get_fitness_stores. }
  split.
  - unfold get_fitness. by rewrite Hhit.
  - by apply cached_Some_entry.
Qed.

End FitnessCache.

(** Every gene of the universe, and every gene [create] writes, is such a
    token. *)
Lemma gene_tokens_ok :
  Forall (fun gene => token_ok gene = true)
         (LumpedCMFGenerator.gene_set
          ++ ["tr_first_second"; "tr_second_river"; "tr_third_river"]).
Proof. apply (bool_decide_unpack _). vm_compute. exact I. Qed.

Lemma get_fitness_cache_hit_witness :
  let model genes (data : nat) (obj_func : bool) := (genes, data, obj_func) in
  let first :=
    get_fitness nat nat bool (list string * nat * bool) model
      ["snow"; "river"] 1 true (fun _ run => run) (FitnessState [] 0) in
  get_fitness nat nat bool (list string * nat * bool) model
    ["river"; "snow"] 2 false (fun _ run => 10 + run) first.2
  = (first.1, first.2)
  /\ exists i key,
       models_so_far first.2 !! i = Some (key, first.1)
       /\ forall gene, gene ∈ PyStr.split key <-> gene ∈ ["river"; "snow"].
Proof.
  intros model.
  apply (get_fitness_cache_hit model 1 true (fun _ run => run)
           (FitnessState [] 0) ["snow"; "river"] ["river"; "snow"] []
           2 false (fun _ run => 10 + run)).
  - by repeat constructor.
  - constructor.
  - intros gene. rewrite !elem_of_cons. tauto.
Defined.

(** A gene with a blank in it is no such token: its key splits into other
    genes, and it is evaluated afresh each time. *)
Example spaced_gene_is_evaluated_again :
  let evaluate genes st :=
    get_fitness nat unit unit (list string) (fun genes _ _ => genes)
      genes tt tt (fun _ run => run) st in
  runs (evaluate ["a b"] (evaluate ["a b"] (FitnessState [] 0)).2).2 = 2.
Proof. reflexivity. Qed.

(** * Further properties of mutation *)

(** The same steps in a hypothesis. *)
Ltac py_pure_in H := erewrite bind_Ok in H by reflexivity.
Ltac py_run_in E H := erewrite bind_Ok in H by exact E.

Lemma for_range_Ok_inv (I : world -> Prop) (body : Py flow) n w u w' :
  (forall w c w', I w -> body w = Ok c w' -> I w') ->
  I w -> for_range n body w = Ok u w' -> I w'.
Proof.
  intros Hbody. revert w. induction n as [|n IH]; intros w Hw.
  - by intros [_ ->]%ret_Ok_inv.
  - cbn [for_range]. intros ([|] & w1 & Hrun & H)%bind_Ok_inv.
    + eapply IH; [|exact H]. by eapply Hbody.
    + apply ret_Ok_inv in H as [_ ->]. by eapply Hbody.
Qed.

Lemma while_true_Ok_inv (I : world -> Prop) (body : Py flow) fuel w u w' :
  (forall w c w', I w -> body w = Ok c w' -> I w') ->
  I w -> while_true fuel body w = Ok u w' -> I w'.
Proof.
  intros Hbody. revert w. induction fuel as [|fuel IH]; intros w Hw;
    [discriminate|].
  cbn [while_true]. intros ([|] & w1 & Hrun & H)%bind_Ok_inv.
  - eapply IH; [|exact H]. by eapply Hbody.
  - apply ret_Ok_inv in H as [_ ->]. by eapply Hbody.
Qed.

Lemma while_true_spins (I : world -> Prop) (body : Py flow) fuel w :
  (forall w, I w -> exists w', body w = Ok Next w' /\ I w') ->
  I w -> while_true fuel body w = Spin.
Proof.
  intros Hbody. revert w. induction fuel as [|fuel IH]; intros w Hw;
    [reflexivity|].
  destruct (Hbody w Hw) as (w' & Hrun & Hw').
  cbn [while_true]. py_run Hrun. by apply IH.
Qed.

Lemma for_range_next n (body : Py flow) w w1 :
  body w = Ok Next w1 -> for_range (S n) body w = for_range n body w1.
Proof. intros H. cbn [for_range]. by py_run H. Qed.

Lemma kind_drawn w :
  exists kind, picks kind w /\ kind ∈ ["add"; "del"; "swap"].
Proof. by apply choice_run. Qed.

(** Shuffling and popping takes one gene out of a genotype that has one. *)
Lemma shuffle_pop_run genes w :
  deref w genes <> [] ->
  exists w1 x rest,
    random.shuffle genes w = Ok tt w1
    /\ list_pop genes w1 = Ok x (set_heap (<[genes := rest]> (heap w1)) w1)
    /\ rest ++ [x] ≡ₚ deref w genes.
Proof.
  intros Hne. destruct (shuffle_run genes w) as (w1 & Hshuffle & Hperm & _).
  assert (deref w1 genes <> []) as [x [rest E]%last_Some]%last_is_Some.
  { intros E. rewrite E in Hperm. by apply Permutation_nil_l in Hperm. }
  exists w1, x, rest. split; [done|]. split; [by apply list_pop_run|].
  by rewrite <- E.
Qed.

Lemma list_pop_empty genes w :
  deref w genes = [] -> list_pop genes w = Raise IndexError w.
Proof. intros E. unfold list_pop. py_pure. by rewrite E. Qed.

(** The repetitions of the del branch on a genotype that has enough genes. *)
Lemma del_repetitions genes gene_set n w :
  n <= length (deref w genes) ->
  exists w',
    for_range n (
      len ← list_len genes;
      if len =? 0 then
        new_gene ← random.choice gene_set;
        list_append genes new_gene;;
        mret Break
      else
        random.shuffle genes;;
        list_pop genes;;
        mret Next) w = Ok tt w'
    /\ deref w' genes ⊆+ deref w genes
    /\ length (deref w' genes) + n = length (deref w genes).
Proof.
  revert w. induction n as [|n IH]; intros w Hn.
  - exists w. split; [done|]. split; [done | lia].
  - assert (deref w genes <> []) as Hne by (intros E; rewrite E in Hn; simpl in Hn; lia).
    destruct (shuffle_pop_run genes w Hne) as (w1 & x & rest & Hs & Hp & Hperm).
    set (w2 := set_heap (<[genes := rest]> (heap w1)) w1) in *.
    assert (deref w2 genes = rest) as E2 by apply deref_set_heap_eq.
    assert (length (deref w genes) = S (length rest)) as Hlen.
    { rewrite <- Hperm, length_app. simpl. lia. }
    destruct (IH w2) as (w' & Hrun & Hsub & Hlen'); [rewrite E2; lia|].
    exists w'. split; [|split].
    + rewrite <- Hrun. apply for_range_next. py_pure.
      destruct (length (deref w genes)) eqn:E; [lia|]. cbn [Nat.eqb].
      py_run Hs. by py_run Hp.
    + rewrite Hsub, E2, <- Hperm. by apply submseteq_inserts_r.
    + rewrite E2 in Hlen'. lia.
Qed.

(** X2 (del). On a genotype of three genes or more, the del kind returns,
    takes between one and three genes out and adds none: what is left is
    part of the old genotype, gene for gene. *)
Theorem mutate_del_removes (fuel : nat) (genes : loc) (gene_set : pyval)
    (w : world) :
  picks "del" w ->
  3 <= length (deref w genes) ->
  exists w' n,
    mutate fuel genes gene_set w = Ok tt w'
    /\ 1 <= n <= 3
    /\ deref w' genes ⊆+ deref w genes
    /\ length (deref w' genes) + n = length (deref w genes).
Proof.
  intros Hpick Hlen.
  destruct (randint_run 1 3 (advance w)) as (n & Hn & Hn1); [lia|].
  destruct (del_repetitions genes gene_set n (advance (advance w)))
    as (w' & Hrun & Hsub & Hcount).
  { change (deref (advance (advance w)) genes) with (deref w genes). lia. }
  exists w', n. split; [|done].
  unfold mutate. py_run Hpick. cbn [String.eqb Ascii.eqb Bool.eqb].
  cbv zeta. py_run Hn. exact Hrun.
Qed.

Lemma mutate_del_removes_witness :
  exists w' n,
    mutate 0 0 (PyList LumpedCMFGenerator.gene_set)
      (world_of ["snow"; "river"; "lai"; "canopy"] [1; 1]%N) = Ok tt w'
    /\ 1 <= n <= 3
    /\ deref w' 0
         ⊆+ deref (world_of ["snow"; "river"; "lai"; "canopy"] [1; 1]%N) 0
    /\ length (deref w' 0) + n
       = length (deref (world_of ["snow"; "river"; "lai"; "canopy"] [1; 1]%N) 0).
Proof.
  apply (mutate_del_removes 0 0 (PyList LumpedCMFGenerator.gene_set)
           (world_of ["snow"; "river"; "lai"; "canopy"] [1; 1]%N)).
  - reflexivity.
  - vm_compute. lia.
Defined.

Lemma deref_copy_of_empty w genes :
  deref w genes = [] ->
  deref (set_heap (<[fresh (dom (heap w)) := []]> (heap w)) w) genes = [].
Proof.
  intros E. unfold deref in *. simpl.
  destruct (decide (fresh (dom (heap w)) = genes)) as [<-|Hne].
  - apply lookup_total_insert_eq.
  - by rewrite lookup_total_insert_ne.
Qed.

(** X4 (swap, empty). On an empty genotype the swap kind raises [ValueError]:
    [random.randrange(0, 0)] has nothing to choose from. *)
Theorem mutate_swap_empty_raises (fuel : nat) (genes : loc)
    (gene_set : pyval) (w : world) :
  picks "swap" w ->
  deref w genes = [] ->
  exists w', mutate fuel genes gene_set w = Raise ValueError w'.
Proof.
  intros Hpick Hempty.
  destruct (randint_run 1 3 (advance w)) as (n & Hn & Hn1 & _); [lia|].
  destruct n as [|n]; [lia|].
  eexists. unfold mutate. py_run Hpick. cbn [String.eqb Ascii.eqb Bool.eqb].
  cbv zeta. py_run Hn. apply for_range_raise.
  py_pure. py_pure.
  change (deref (advance (advance w)) genes) with (deref w genes).
  rewrite Hempty.
  change (heap (advance (advance w))) with (heap w).
  match goal with |- context [length (deref ?w1 genes)] =>
    replace (deref w1 genes) with (@nil string)
      by (symmetry; by apply (deref_copy_of_empty w genes)) end.
  apply bind_Raise. reflexivity.
Qed.

Lemma mutate_swap_empty_raises_witness :
  exists w',
    mutate 0 0 (PyList LumpedCMFGenerator.gene_set) (world_of [] [2]%N)
    = Raise ValueError w'.
Proof.
  apply (mutate_swap_empty_raises 0 0 (PyList LumpedCMFGenerator.gene_set)
           (world_of [] [2]%N)); reflexivity.
Defined.

(** X3 (add, no way out). When the genotype holds every gene of the universe
    and a gene from outside it, the add kind never returns: the genotype is
    not the universe, so no gene is removed, and every gene sampled is
    present already. *)
Theorem mutate_add_spins_beyond_universe (fuel : nat) (genes : loc)
    (universe : list string) (foreign : string) (w : world) :
  picks "add" w ->
  universe <> [] ->
  (forall gene, gene ∈ universe -> gene ∈ deref w genes) ->
  foreign ∈ deref w genes -> foreign ∉ universe ->
  mutate fuel genes (PyList universe) w = Spin.
Proof.
  intros Hpick Hne Hall Hin Hout.
  destruct (randint_run 1 3 (advance w)) as (n & Hn & Hn1 & _); [lia|].
  destruct n as [|n]; [lia|].
  unfold mutate. py_run Hpick. cbn [String.eqb Ascii.eqb Bool.eqb].
  cbv zeta. py_run Hn. cbn [for_range]. apply bind_Spin.
  py_pure. py_pure.
  change (deref (advance (advance w)) genes) with (deref w genes).
  destruct (PyStr.set_eqb (deref w genes) universe) eqn:Hset.
  { exfalso. apply Hout. by apply (proj1 (set_eqb_true _ _) Hset). }
  apply bind_Spin.
  apply (while_true_spins (fun w1 => deref w1 genes = deref w genes));
    [|reflexivity].
  intros w1 Hw1.
  destruct (choice_run universe w1 Hne) as (gene & Hgene & Hgene_in).
  exists (advance w1). split; [|done].
  py_run Hgene. py_pure.
  change (deref (advance w1) genes) with (deref w1 genes). rewrite Hw1.
  by rewrite (bool_decide_eq_true_2 _ (Hall gene Hgene_in)).
Qed.

Lemma mutate_add_spins_beyond_universe_witness :
  mutate 5 0 (PyList LumpedCMFGenerator.gene_set)
    (world_of (LumpedCMFGenerator.gene_set ++ ["tr_first_second"]) [0]%N)
  = Spin.
Proof.
  apply (mutate_add_spins_beyond_universe 5 0 LumpedCMFGenerator.gene_set
           "tr_first_second").
  - reflexivity.
  - discriminate.
  - intros gene Hgene. apply elem_of_app. by left.
  - in_literals.
  - intros H. out_of_literals H.
Defined.

(** One repetition of the del branch when a function stands in for the gene
    universe: it returns only by taking a gene out. *)
Lemma del_step_with_function genes name w c w' :
  (len ← list_len genes;
   if len =? 0 then
     new_gene ← random.choice (PyFunction name);
     list_append genes new_gene;;
     mret Break
   else
     random.shuffle genes;;
     list_pop genes;;
     mret Next) w = Ok c w' ->
  c = Next /\ exists x, deref w' genes ++ [x] ≡ₚ deref w genes.
Proof.
  intros H. py_pure_in H.
  destruct (deref w genes) as [|g l] eqn:E; [discriminate|].
  cbn [length Nat.eqb] in H.
  destruct (shuffle_pop_run genes w) as (w1 & x & rest & Hs & Hp & Hperm);
    [by rewrite E|].
  py_run_in Hs H. py_run_in Hp H. apply ret_Ok_inv in H as [-> ->].
  split; [done|]. exists x. by rewrite deref_set_heap_eq, <- E.
Qed.

(** X5 (driver). Whenever the helper [fn_mutate] of [solve] returns, it has
    only taken genes out: the genotype is a strict part of what it was. The
    add and swap kinds never return there. *)
Theorem fn_mutate_only_deletes (fuel : nat) (genes : loc) (w w' : world) :
  solve.fn_mutate fuel genes w = Ok tt w' ->
  deref w' genes ⊆+ deref w genes
  /\ length (deref w' genes) < length (deref w genes).
Proof.
  unfold solve.fn_mutate, mutate.
  destruct (kind_drawn w) as (kind & Hpick & Hkind).
  destruct (randint_run 1 3 (advance w)) as (n & Hn & Hn1 & _); [lia|].
  destruct n as [|n]; [lia|].
  intros H. py_run_in Hpick H. cbv zeta in H.
  apply elem_of_cons in Hkind as [->|Hkind];
    [|apply elem_of_cons in Hkind as [->|Hkind];
      [|apply list_elem_of_singleton in Hkind as ->]];
    cbn [String.eqb Ascii.eqb Bool.eqb] in H; py_run_in Hn H.
  - (* add: set(gene_set) raises *)
    erewrite for_range_raise in H; [discriminate|].
    py_pure. by apply bind_Raise.
  - (* del *)
    cbn [for_range] in H.
    apply bind_Ok_inv in H as (c & w1 & Hfirst & H).
    apply del_step_with_function in Hfirst as [-> [x Hperm]].
    change (deref (advance (advance w)) genes) with (deref w genes) in Hperm.
    assert (deref w' genes ⊆+ deref w1 genes) as Hsub.
    { eapply (for_range_Ok_inv
                (fun wa => deref wa genes ⊆+ deref w1 genes)); [|done|exact H].
      intros wa c wb Hwa [_ [y Hy]]%del_step_with_function.
      cbv beta. rewrite <- Hwa, <- Hy. by apply submseteq_inserts_r. }
    split.
    + rewrite Hsub, <- Hperm. by apply submseteq_inserts_r.
    + apply submseteq_length in Hsub. apply Permutation_length in Hperm.
      rewrite length_app in Hperm. simpl in Hperm. lia.
  - (* swap: randrange or sample raises *)
    assert (exists e w1,
      (initial_genes ← (l ← read_list genes; new_list l);
       len ← list_len genes;
       index ← random.randrange 0 len;
       sampled ← random.sample2 (PyFunction "fn_get_fitness");
       let '(new_gene, alternate) := sampled in
       current ← list_getitem initial_genes index;
       list_setitem initial_genes index
         (if String.eqb new_gene current then alternate else new_gene);;
       mret Next) (advance (advance w)) = Raise e w1) as (e & w1 & Hraise).
    { py_pure. py_pure.
      match goal with |- context [random.randrange 0 ?k ≫= _] =>
        destruct k as [|len'] eqn:E end.
      - do 2 eexists. by apply bind_Raise.
      - match goal with |- context [(_ ≫= _) ?w1] =>
          destruct (randrange_run 0 (S len') w1) as (i & Hi & _); [lia|] end.
        py_run Hi. do 2 eexists. by apply bind_Raise. }
    by erewrite for_range_raise in H.
Qed.

Lemma fn_mutate_only_deletes_witness :
  let w := world_of ["snow"; "river"] [1; 0]%N in
  let w' := set_heap {[0 := ["river"]]} (advance (advance (advance w))) in
  deref w' 0 ⊆+ deref w 0 /\ length (deref w' 0) < length (deref w 0).
Proof.
  apply (fn_mutate_only_deletes 0 0). vm_compute. reflexivity.
Defined.

Lemma choice_Ok_inv l w x w' :
  random.choice (PyList l) w = Ok x w' -> x ∈ l /\ w' = advance w.
Proof.
  destruct l as [|a l]; [discriminate|].
  destruct (choice_run (a :: l) w) as (y & Hy & Hin); [done|].
  rewrite Hy. by intros [= <- <-].
Qed.

Lemma shuffle_pop_Ok_inv {A} genes (k : string -> Py A) w a w' :
  (random.shuffle genes;; list_pop genes ≫= k) w = Ok a w' ->
  exists w2 x,
    deref w2 genes ++ [x] ≡ₚ deref w genes /\ k x w2 = Ok a w'.
Proof.
  intros H. destruct (decide (deref w genes = [])) as [E|Hne].
  - destruct (shuffle_run genes w) as (w1 & Hs & Hperm & _).
    py_run_in Hs H. rewrite E in Hperm. apply Permutation_nil_r in Hperm.
    by rewrite (bind_Raise _ _ _ _ _ (list_pop_empty _ _ Hperm)) in H.
  - destruct (shuffle_pop_run genes w Hne) as (w1 & x & rest & Hs & Hp & Hperm).
    py_run_in Hs H. py_run_in Hp H.
    eexists _, x. split; [|exact H]. by rewrite deref_set_heap_eq.
Qed.

Lemma well_kept_pop genes old universe w w2 x :
  deref w2 genes ++ [x] ≡ₚ deref w genes ->
  well_kept genes old universe w -> well_kept genes old universe w2.
Proof.
  intros Hperm [Hnodup Hfrom]. rewrite <- Hperm in Hnodup. split.
  - by apply NoDup_app in Hnodup as [? _].
  - intros gene Hgene. apply Hfrom. rewrite <- Hperm.
    apply elem_of_app. by left.
Qed.

Lemma well_kept_append genes old universe w x :
  x ∉ deref w genes -> x ∈ universe ->
  well_kept genes old universe w ->
  well_kept genes old universe
    (set_heap (<[genes := deref w genes ++ [x]]> (heap w)) w).
Proof.
  intros Hout Hin [Hnodup Hfrom]. unfold well_kept.
  rewrite deref_set_heap_eq. split.
  - apply NoDup_app. split; [done|]. split; [|apply NoDup_singleton].
    intros y Hy Hy'%list_elem_of_singleton. by subst.
  - intros gene [?|Hg%list_elem_of_singleton]%elem_of_app; subst; auto.
Qed.

Lemma add_step_keeps fuel genes old universe w c w' :
  (mine ← read_list genes;
   all ← py_iter (PyList universe);
   if PyStr.set_eqb mine all then
     random.shuffle genes;;
     list_pop genes;;
     mret Break
   else
     while_true fuel (
       new_gene ← random.choice (PyList universe);
       present ← list_contains new_gene genes;
       if negb present then
         list_append genes new_gene;;
         mret Break
       else mret Next);;
     mret Next) w = Ok c w' ->
  well_kept genes old universe w -> well_kept genes old universe w'.
Proof.
  intros H Hw. py_pure_in H. py_pure_in H.
  destruct (PyStr.set_eqb (deref w genes) universe).
  - apply shuffle_pop_Ok_inv in H as (w2 & x & Hperm & H).
    apply ret_Ok_inv in H as [_ ->]. by eapply well_kept_pop.
  - apply bind_Ok_inv in H as (? & w1 & Hloop & H).
    apply ret_Ok_inv in H as [_ ->].
    eapply (while_true_Ok_inv (well_kept genes old universe));
      [|exact Hw|exact Hloop].
    clear. intros w c w' Hw H.
    apply bind_Ok_inv in H as (gene & w1 & [Hin ->]%choice_Ok_inv & H).
    py_pure_in H. change (deref (advance w) genes) with (deref w genes) in H.
    destruct (bool_decide (gene ∈ deref w genes)) eqn:Hpresent;
      cbn [negb] in H.
    + apply ret_Ok_inv in H as [_ ->]. exact Hw.
    + py_pure_in H. apply ret_Ok_inv in H as [_ ->].
      apply bool_decide_eq_false_1 in Hpresent.
      by apply (well_kept_append genes old universe (advance w)).
Qed.

Lemma del_step_keeps genes old universe w c w' :
  (len ← list_len genes;
   if len =? 0 then
     new_gene ← random.choice (PyList universe);
     list_append genes new_gene;;
     mret Break
   else
     random.shuffle genes;;
     list_pop genes;;
     mret Next) w = Ok c w' ->
  well_kept genes old universe w -> well_kept genes old universe w'.
Proof.
  intros H Hw. py_pure_in H.
  destruct (deref w genes) as [|g l] eqn:E; cbn [length Nat.eqb] in H.
  - apply bind_Ok_inv in H as (gene & w1 & [Hin ->]%choice_Ok_inv & H).
    py_pure_in H. apply ret_Ok_inv in H as [_ ->].
    apply (well_kept_append genes old universe (advance w)); [|done..].
    change (deref (advance w) genes) with (deref w genes). rewrite E.
    apply not_elem_of_nil.
  - apply shuffle_pop_Ok_inv in H as (w2 & x & Hperm & H).
    apply ret_Ok_inv in H as [_ ->]. by eapply well_kept_pop.
Qed.

Lemma swap_step_keeps genes universe l w c w' :
  (initial_genes ← (l ← read_list genes; new_list l);
   len ← list_len genes;
   index ← random.randrange 0 len;
   sampled ← random.sample2 (PyList universe);
   let '(new_gene, alternate) := sampled in
   current ← list_getitem initial_genes index;
   list_setitem initial_genes index
     (if String.eqb new_gene current then alternate else new_gene);;
   mret Next) w = Ok c w' ->
  heap w !! genes = Some l -> heap w' !! genes = Some l.
Proof.
  intros H Hlive.
  pose proof (fresh_ne_live w genes l Hlive) as Hfresh.
  py_pure_in H. py_pure_in H.
  apply bind_Ok_inv in H as (index & w1 & Hindex & H).
  apply bind_Ok_inv in H as ([new_gene alternate] & w2 & Hsample & H).
  apply bind_Ok_inv in H as (current & w3 & Hget & H).
  apply bind_Ok_inv in H as (? & w4 & Hset & H).
  apply ret_Ok_inv in H as [_ ->].
  assert (heap w1 !! genes = Some l) as H1.
  { unfold random.randrange in Hindex.
    destruct (decide _) in Hindex; [|discriminate].
    rewrite bind_run, randbelow_run in Hindex. injection Hindex as _ <-.
    cbn [heap advance set_heap]. by rewrite lookup_insert_ne. }
  assert (heap w2 = heap w1) as H2.
  { unfold random.sample2 in Hsample. do 2 py_pure_in Hsample.
    destruct (decide _) in Hsample; [|discriminate].
    rewrite bind_run, randbelow_run, bind_run, randbelow_run in Hsample.
    by injection Hsample as _ _ <-. }
  assert (w3 = w2) as ->.
  { unfold list_getitem in Hget. py_pure_in Hget.
    destruct (_ !! index) in Hget; [|discriminate].
    by apply ret_Ok_inv in Hget as [_ ->]. }
  unfold list_setitem in Hset. py_pure_in Hset.
  destruct (decide _) in Hset; [|discriminate].
  injection Hset as _ <-. cbn [heap advance set_heap].
  rewrite lookup_insert_ne by done. by rewrite H2.
Qed.

(** X1 (mutate keeps genotypes well formed). Whatever kind is selected, when
    [mutate] returns on a genotype without duplicates, the genotype has no
    duplicates and every gene in it is an old one or a gene of the
    universe. *)
Theorem mutate_keeps_well_formed (fuel : nat) (genes : loc)
    (universe l : list string) (w w' : world) :
  heap w !! genes = Some l ->
  NoDup l ->
  mutate fuel genes (PyList universe) w = Ok tt w' ->
  NoDup (deref w' genes)
  /\ forall gene, gene ∈ deref w' genes -> gene ∈ l \/ gene ∈ universe.
Proof.
  intros Hlive Hnodup H. unfold mutate in H.
  destruct (kind_drawn w) as (kind & Hpick & Hkind).
  destruct (randint_run 1 3 (advance w)) as (n & Hn & _); [lia|].
  py_run_in Hpick H. cbv zeta in H.
  assert (well_kept genes l universe (advance (advance w))) as Hstart.
  { split; change (deref (advance (advance w)) genes) with (deref w genes);
      rewrite (deref_live _ _ _ Hlive); auto. }
  apply elem_of_cons in Hkind as [->|Hkind];
    [|apply elem_of_cons in Hkind as [->|Hkind];
      [|apply list_elem_of_singleton in Hkind as ->]];
    cbn [String.eqb Ascii.eqb Bool.eqb] in H; py_run_in Hn H.
  - eapply (for_range_Ok_inv (well_kept genes l universe));
      [|exact Hstart|exact H].
    intros wa c wb Hwa Hstep. by eapply add_step_keeps.
  - eapply (for_range_Ok_inv (well_kept genes l universe));
      [|exact Hstart|exact H].
    intros wa c wb Hwa Hstep. by eapply del_step_keeps.
  - assert (heap w' !! genes = Some l) as Hlive'.
    { eapply (for_range_Ok_inv (fun wa => heap wa !! genes = Some l)
                _ n (advance (advance w))); [|exact Hlive|exact H].
      intros wa c wb Hwa Hstep. by eapply swap_step_keeps. }
    rewrite (deref_live _ _ _ Hlive'). auto.
Qed.

Lemma mutate_keeps_well_formed_witness :
  let w := world_of ["snow"] [0; 1; 1; 5]%N in
  let w' := set_heap {[0 := ["snow"; "canopy"; "tr_first_out"]]}
              (advance (advance (advance (advance w)))) in
  NoDup (deref w' 0)
  /\ forall gene, gene ∈ deref w' 0 ->
       gene ∈ ["snow"] \/ gene ∈ LumpedCMFGenerator.gene_set.
Proof.
  apply (mutate_keeps_well_formed 1 0 LumpedCMFGenerator.gene_set ["snow"]
           (world_of ["snow"] [0; 1; 1; 5]%N)).
  - reflexivity.
  - apply NoDup_singleton.
  - vm_compute. reflexivity.
Defined.

(** The sampling loop of the add branch is left by appending one gene of
    the universe that the genotype lacks. *)
Lemma add_sampling_Ok_inv fuel genes universe w u w' :
  while_true fuel (
    new_gene ← random.choice (PyList universe);
    present ← list_contains new_gene genes;
    if negb present then
      list_append genes new_gene;;
      mret Break
    else mret Next) w = Ok u w' ->
  exists gene,
    gene ∈ universe /\ (gene ∉ deref w genes)
    /\ deref w' genes = deref w genes ++ [gene].
Proof.
  revert w. induction fuel as [|fuel IH]; intros w; [discriminate|].
  cbn [while_true]. intros (c & w1 & Hstep & H)%bind_Ok_inv.
  apply bind_Ok_inv in Hstep as (gene & w2 & [Hin ->]%choice_Ok_inv & Hstep).
  py_pure_in Hstep.
  change (deref (advance w) genes) with (deref w genes) in Hstep.
  destruct (bool_decide (gene ∈ deref w genes)) eqn:Hpresent;
    cbn [negb] in Hstep.
  - apply ret_Ok_inv in Hstep as [-> ->]. by apply IH in H.
  - py_pure_in Hstep. apply ret_Ok_inv in Hstep as [-> ->].
    apply ret_Ok_inv in H as [_ ->].
    exists gene. apply bool_decide_eq_false_1 in Hpresent.
    by rewrite deref_set_heap_eq.
Qed.

(** The repetitions of the add branch while the universe has room left. *)
Lemma add_repetitions fuel genes universe l n :
  NoDup universe ->
  forall w added u w',
    deref w genes = l ++ added ->
    NoDup (l ++ added) ->
    (forall gene, gene ∈ l ++ added -> gene ∈ universe) ->
    length l + length added + n <= length universe ->
    for_range n (
      mine ← read_list genes;
      all ← py_iter (PyList universe);
      if PyStr.set_eqb mine all then
        random.shuffle genes;;
        list_pop genes;;
        mret Break
      else
        while_true fuel (
          new_gene ← random.choice (PyList universe);
          present ← list_contains new_gene genes;
          if negb present then
            list_append genes new_gene;;
            mret Break
          else mret Next);;
        mret Next) w = Ok u w' ->
    exists added',
      deref w' genes = l ++ added'
      /\ length added' = length added + n
      /\ NoDup (l ++ added')
      /\ forall gene, gene ∈ l ++ added' -> gene ∈ universe.
Proof.
  intros Huniverse. induction n as [|n IH];
    intros w added u w' Hgenes Hnodup Hfrom Hroom.
  - intros [_ ->]%ret_Ok_inv. exists added. split; [done|].
    split; [lia | done].
  - cbn [for_range]. intros (c & w1 & Hstep & H)%bind_Ok_inv.
    py_pure_in Hstep. py_pure_in Hstep. rewrite Hgenes in Hstep.
    destruct (PyStr.set_eqb (l ++ added) universe) eqn:Hset.
    { exfalso. pose proof (proj1 (set_eqb_true _ _) Hset) as Hsame.
      assert (length universe <= length (l ++ added)) as Hle.
      { apply submseteq_length, NoDup_submseteq; [done|].
        intros gene. apply Hsame. }
      rewrite length_app in Hle. lia. }
    apply bind_Ok_inv in Hstep as (? & w2 & Hloop & Hstep).
    apply ret_Ok_inv in Hstep as [-> ->].
    apply add_sampling_Ok_inv in Hloop as (gene & Hin & Hout & Hnew).
    rewrite Hgenes in Hout, Hnew. rewrite <- (assoc_L (++)) in Hnew.
    destruct (IH w2 (added ++ [gene]) u w') as (added' & E & Hlen & Hnd & Hf).
    + done.
    + rewrite (assoc_L (++)). apply NoDup_app. split; [done|].
      split; [|apply NoDup_singleton].
      intros y Hy Hy'%list_elem_of_singleton. by subst.
    + intros y. rewrite (assoc_L (++)), elem_of_app, list_elem_of_singleton.
      intros [?| ->]; auto.
    + rewrite length_app. simpl. lia.
    + exact H.
    + exists added'. rewrite length_app in Hlen. simpl in Hlen.
      split; [done|]. split; [lia | done].
Qed.

(** X6 (add). On a duplicate-free genotype of universe genes that leaves room
    for three more, the add kind, when it returns, has appended between one
    and three genes of the universe that were not there, behind the old
    genes. *)
Theorem mutate_add_grows (fuel : nat) (genes : loc) (universe : list string)
    (w w' : world) :
  picks "add" w ->
  NoDup universe ->
  NoDup (deref w genes) ->
  (forall gene, gene ∈ deref w genes -> gene ∈ universe) ->
  length (deref w genes) + 3 <= length universe ->
  mutate fuel genes (PyList universe) w = Ok tt w' ->
  exists added,
    deref w' genes = deref w genes ++ added
    /\ 1 <= length added <= 3
    /\ NoDup (deref w genes ++ added)
    /\ forall gene, gene ∈ added -> gene ∈ universe.
Proof.
  intros Hpick Huniverse Hnodup Hfrom Hroom H. unfold mutate in H.
  destruct (randint_run 1 3 (advance w)) as (n & Hn & Hn1); [lia|].
  py_run_in Hpick H. cbn [String.eqb Ascii.eqb Bool.eqb] in H.
  cbv zeta in H. py_run_in Hn H.
  destruct (add_repetitions fuel genes universe (deref w genes) n Huniverse
              (advance (advance w)) [] tt w')
    as (added & E & Hlen & Hnd & Hf).
  - by rewrite app_nil_r.
  - by rewrite app_nil_r.
  - intros gene. rewrite app_nil_r. apply Hfrom.
  - simpl. lia.
  - exact H.
  - exists added. simpl in Hlen. split; [done|]. split; [lia|].
    split; [done|]. intros gene Hgene. apply Hf, elem_of_app. by right.
Qed.

Lemma mutate_add_grows_witness :
  let w := world_of ["snow"] [0; 1; 1; 5]%N in
  exists added,
    deref (set_heap {[0 := ["snow"; "canopy"; "tr_first_out"]]}
             (advance (advance (advance (advance w))))) 0
    = deref w 0 ++ added
    /\ 1 <= length added <= 3
    /\ NoDup (deref w 0 ++ added)
    /\ forall gene, gene ∈ added -> gene ∈ LumpedCMFGenerator.gene_set.
Proof.
  apply (mutate_add_grows 1 0 LumpedCMFGenerator.gene_set
           (world_of ["snow"] [0; 1; 1; 5]%N)).
  - reflexivity.
  - apply (bool_decide_unpack _). vm_compute. exact I.
  - apply (bool_decide_unpack _). vm_compute. exact I.
  - intros gene Hgene. apply (bool_decide_unpack _).
    change (deref (world_of ["snow"] [0; 1; 1; 5]%N) 0) with ["snow"] in Hgene.
    apply list_elem_of_singleton in Hgene as ->. vm_compute. exact I.
  - vm_compute. lia.
  - vm_compute. reflexivity.
Defined.

(** * Further properties of crossover and of the validator *)

(** The run of [crossover]: two split points within the parents, and a new
    list object for the child. *)
Lemma crossover_run w first_parent second_parent :
  exists i j,
    i <= length (deref w first_parent)
    /\ j <= length (deref w second_parent)
    /\ crossover first_parent second_parent w
       = Ok (fresh (dom (heap w)))
            (set_heap
               (<[fresh (dom (heap w)) :=
                    foldr (insert_by (str_hash w)) []
                      (remove_dups (take i (deref w first_parent)
                                    ++ drop j (deref w second_parent)))]>
                  (heap w))
               (advance (advance w))).
Proof.
  destruct (randint_run 0 (length (deref w first_parent)) w)
    as (i & Hi & _ & Hile); [lia|].
  destruct (randint_run 0 (length (deref w second_parent)) (advance w))
    as (j & Hj & _ & Hjle); [lia|].
  exists i, j. split; [done|]. split; [done|].
  unfold crossover. py_pure. py_run Hi. py_pure. py_run Hj. reflexivity.
Qed.

Lemma deref_new w w2 r l :
  deref (set_heap (<[r := l]> (heap w)) w2) r = l.
Proof. unfold deref. simpl. apply lookup_total_insert_eq. Qed.

(** X7 (crossover, the child). The child holds exactly the genes of a prefix
    of the first parent and of a suffix of the second, the two cut at points
    within the parents; it is no longer than the two parts together. *)
Theorem crossover_child_genes (w : world) (first_parent second_parent : loc) :
  exists i j child w',
    crossover first_parent second_parent w = Ok child w'
    /\ i <= length (deref w first_parent)
    /\ j <= length (deref w second_parent)
    /\ (forall gene,
          gene ∈ deref w' child <->
          gene ∈ take i (deref w first_parent)
          \/ gene ∈ drop j (deref w second_parent))
    /\ length (deref w' child) <= i + (length (deref w second_parent) - j).
Proof.
  destruct (crossover_run w first_parent second_parent)
    as (i & j & Hi & Hj & Hrun).
  eexists i, j, _, _. split; [exact Hrun|]. split; [done|]. split; [done|].
  rewrite deref_new. split.
  - intros gene.
    by rewrite list_of_set_perm, elem_of_remove_dups, elem_of_app.
  - rewrite list_of_set_perm.
    transitivity (length (take i (deref w first_parent)
                          ++ drop j (deref w second_parent))).
    + apply submseteq_length, NoDup_submseteq; [apply NoDup_remove_dups|].
      intros gene. by rewrite elem_of_remove_dups.
    + rewrite length_app, length_take, length_drop. lia.
Qed.

(** X8 (crossover, the parents). [crossover] writes to no list it was given:
    the child is a new list object, the parents and every other list are
    what they were. *)
Theorem crossover_leaves_parents (w : world) (first_parent second_parent : loc)
    (a b : list string) :
  heap w !! first_parent = Some a ->
  heap w !! second_parent = Some b ->
  exists child w',
    crossover first_parent second_parent w = Ok child w'
    /\ child <> first_parent /\ child <> second_parent
    /\ heap w !! child = None
    /\ forall r, r <> child -> heap w' !! r = heap w !! r.
Proof.
  intros Ha Hb.
  destruct (crossover_run w first_parent second_parent)
    as (i & j & _ & _ & Hrun).
  eexists _, _. split; [exact Hrun|].
  split; [by eapply fresh_ne_live|]. split; [by eapply fresh_ne_live|].
  split.
  - apply not_elem_of_dom, is_fresh.
  - intros r Hr. cbn [heap set_heap advance]. by rewrite lookup_insert_ne.
Qed.

Lemma crossover_leaves_parents_witness :
  let w := World {[0 := ["snow"; "river"]; 1 := ["lai"]]}
             (fun _ => 1%N) 0 (fun _ => 0%N) in
  exists child w',
    crossover 0 1 w = Ok child w'
    /\ child <> 0 /\ child <> 1
    /\ heap w !! child = None
    /\ forall r, r <> child -> heap w' !! r = heap w !! r.
Proof.
  apply (crossover_leaves_parents _ 0 1 ["snow"; "river"] ["lai"]);
    reflexivity.
Defined.

(** The run of the validator, with what it establishes. *)
Lemma check_for_connection_post genes w :
  exists w' suffix,
    check_for_connection genes w = Ok tt w'
    /\ deref w' genes = deref w genes ++ suffix
    /\ suffix ⊆ ["tr_first_out"]
    /\ has_outlet (deref w' genes)
    /\ (NoDup (deref w genes) -> NoDup (deref w' genes))
    /\ forall r, r <> genes -> heap w' !! r = heap w !! r.
Proof.
  rewrite check_for_connection_run.
  destruct (connected (deref w genes)) eqn:Hconn.
  - exists w, []. rewrite app_nil_r. split; [done|]. split; [done|].
    split; [apply list_subseteq_nil|].
    split; [by apply connected_has_outlet|]. done.
  - eexists _, ["tr_first_out"]. split; [done|]. rewrite deref_set_heap_eq.
    split; [done|]. split; [done|]. split; [|split].
    + apply has_outlet_routes. exists "tr_first_out".
      split; [in_literals|]. apply elem_of_app. right. apply list_elem_of_here.
    + intros Hnodup. apply NoDup_app. split; [done|].
      split; [|apply NoDup_singleton].
      intros gene Hgene Hout%list_elem_of_singleton. subst.
      assert (connected (deref w genes) = true) as Hyes; [|congruence].
      apply connected_has_outlet, has_outlet_routes.
      exists "tr_first_out". split; [in_literals | done].
    + intros r Hr. cbn [heap set_heap]. by rewrite lookup_insert_ne.
Qed.

(** X9 (validator). For every genotype [check_for_connection] returns, with
    a route to the outlet among the genes; it only appends, it brings in no
    duplicate, and it touches no other list. *)
Theorem check_for_connection_establishes_outlet (w : world) (genes : loc) :
  exists w' suffix,
    check_for_connection genes w = Ok tt w'
    /\ deref w' genes = deref w genes ++ suffix
    /\ has_outlet (deref w' genes)
    /\ (NoDup (deref w genes) -> NoDup (deref w' genes))
    /\ forall r, r <> genes -> heap w' !! r = heap w !! r.
Proof.
  destruct (check_for_connection_post genes w)
    as (w' & suffix & Hrun & E & _ & Hout & Hnodup & Hframe).
  by exists w', suffix.
Qed.

(** X10 (crossover, then the validator). Whatever the parents, the validated
    child of a crossover has no duplicates and a route to the outlet, and
    each of its genes comes from a parent or is "tr_first_out". *)
Theorem validated_crossover_well_formed (w : world)
    (first_parent second_parent : loc) :
  exists child w',
    validated_crossover first_parent second_parent w = Ok child w'
    /\ NoDup (deref w' child)
    /\ has_outlet (deref w' child)
    /\ forall gene, gene ∈ deref w' child ->
         gene ∈ deref w first_parent \/ gene ∈ deref w second_parent
         \/ gene = "tr_first_out".
Proof.
  destruct (crossover_run w first_parent second_parent)
    as (i & j & _ & _ & Hrun).
  match type of Hrun with _ = Ok ?c ?w1 =>
    destruct (check_for_connection_post c w1)
      as (w' & suffix & Hcheck & E & Hsuffix & Hout & Hnodup & _) end.
  rewrite deref_new in E, Hnodup.
  eexists _, w'. split; [|split; [|split]].
  - unfold validated_crossover. py_run Hrun. py_run Hcheck. reflexivity.
  - apply Hnodup. rewrite list_of_set_perm. apply NoDup_remove_dups.
  - done.
  - intros gene. rewrite E, elem_of_app, list_of_set_perm,
      elem_of_remove_dups, elem_of_app.
    intros [[H|H]|H].
    + left. by apply (subseteq_take i).
    + right. left. by apply (subseteq_drop j).
    + right. right. by apply Hsuffix, list_elem_of_singleton in H.
Qed.

(** * Further properties of the fitness cache *)

(** X11 (keys). Joining a genotype of whitespace-free, non-empty genes with
    blanks and splitting the key again gives the genotype back. *)
Theorem key_round_trip (genes : list string) :
  Forall (fun gene => token_ok gene = true) genes ->
  PyStr.split (PyStr.join " " genes) = genes.
Proof. apply split_join. Qed.

Lemma key_round_trip_witness :
  PyStr.split (PyStr.join " " ["snow"; "tr_first_out"; "lai"])
  = ["snow"; "tr_first_out"; "lai"].
Proof. apply key_round_trip. by repeat constructor. Defined.

Lemma set_eqb_sym a b : PyStr.set_eqb a b = PyStr.set_eqb b a.
Proof. unfold PyStr.set_eqb. apply andb_comm. Qed.

Section FitnessCacheRuns.

Context {Fit Data ObjFunc Model : Type}.
Context (LumpedModelCMF : list string -> Data -> ObjFunc -> Model).

Local Abbreviation fitness_at genes data obj_func algorithm st :=
  (get_fitness Fit Data ObjFunc Model LumpedModelCMF
     genes data obj_func algorithm st).
Local Abbreviation evaluated_at population data obj_func algorithm st :=
  (evaluate_all Fit Data ObjFunc Model LumpedModelCMF
     population data obj_func algorithm st).

Lemma cached_None (items : PyDict.t Fit) genes :
  cached Fit items genes = None <->
  forall i key fitness,
    items !! i = Some (key, fitness) ->
    PyStr.set_eqb (PyStr.split key) genes = false.
Proof.
  induction items as [|[old_model v] items IH]; simpl.
  - split; [intros _ i ?? H; by destruct i | done].
  - destruct (PyStr.set_eqb (PyStr.split old_model) genes) eqn:E.
    + split; [done|]. intros H. by rewrite (H 0 old_model v eq_refl) in E.
    + rewrite IH. split.
      * intros H [|i] key fitness Hi; simplify_eq/=; eauto.
      * intros H i key fitness Hi. exact (H (S i) key fitness Hi).
Qed.

(** X12 (miss). For a genotype whose genes no key of the cache splits into,
    [get_fitness] runs the sampler once and returns its best likelihood; the
    entries of the cache stay where they were and the new one goes behind
    them. *)
Theorem get_fitness_miss_appends (genes : list string) (data : Data)
    (obj_func : ObjFunc) (algorithm : Algorithm Fit Model)
    (st : fitness_state Fit) :
  Forall (fun gene => token_ok gene = true) genes ->
  cached Fit (models_so_far st) genes = None ->
  let best_like := algorithm (LumpedModelCMF genes data obj_func) (runs st) in
  fitness_at genes data obj_func algorithm st
  = (best_like,
     FitnessState (models_so_far st ++ [(PyStr.join " " genes, best_like)])
                  (S (runs st))).
Proof.
  intros Hok Hmiss. unfold get_fitness. rewrite Hmiss. cbv zeta.
  by rewrite (set_missed _ _ _ Hok Hmiss).
Qed.

(** X13 (stale hit). The cache looks at the genes only: once a genotype is
    evaluated, a call with other forcing data, another objective function
    or another sampler returns the old fitness and runs nothing. *)
Theorem get_fitness_ignores_forcing (genes : list string)
    (data data' : Data) (obj_func obj_func' : ObjFunc)
    (algorithm algorithm' : Algorithm Fit Model) (st : fitness_state Fit) :
  Forall (fun gene => token_ok gene = true) genes ->
  let first := fitness_at genes data obj_func algorithm st in
  fitness_at genes data' obj_func' algorithm' first.2 = (first.1, first.2).
Proof.
  intros Hok first.
  pose proof (get_fitness_stores LumpedModelCMF data obj_func algorithm
                genes st Hok) as Hhit.
  fold first in Hhit. unfold get_fitness at 1. by rewrite Hhit.
Qed.

(** What a run of evaluations keeps of the cache. *)
Lemma get_fitness_keeps_count genes data obj_func algorithm st :
  Forall (fun gene => token_ok gene = true) genes ->
  length (models_so_far st) = runs st ->
  let st' := (fitness_at genes data obj_func algorithm st).2 in
  length (models_so_far st') = runs st' /\ runs st' <= S (runs st).
Proof.
  intros Hok Hcount. unfold get_fitness.
  destruct (cached Fit (models_so_far st) genes) eqn:Hc; simpl; [lia|].
  rewrite (set_missed _ _ _ Hok Hc), length_app. simpl. lia.
Qed.

Lemma get_fitness_keeps_distinct genes data obj_func algorithm st :
  Forall (fun gene => token_ok gene = true) genes ->
  distinct_models (models_so_far st) ->
  distinct_models
    (models_so_far (fitness_at genes data obj_func algorithm st).2).
Proof.
  intros Hok Hdistinct. unfold get_fitness.
  destruct (cached Fit (models_so_far st) genes) eqn:Hc; simpl; [done|].
  rewrite (set_missed _ _ _ Hok Hc).
  pose proof (proj1 (cached_None _ _) Hc) as Hnone.
  intros i j key fitness key' fitness' Hi Hj Hsame.
  apply lookup_app_Some in Hi as [Hi|[Hilen Hi]];
    apply lookup_app_Some in Hj as [Hj|[Hjlen Hj]].
  - by eapply Hdistinct.
  - apply list_lookup_singleton_Some in Hj as [_ [= <- <-]].
    rewrite split_join in Hsame by done.
    by rewrite (Hnone _ _ _ Hi) in Hsame.
  - apply list_lookup_singleton_Some in Hi as [_ [= <- <-]].
    rewrite split_join, set_eqb_sym in Hsame by done.
    by rewrite (Hnone _ _ _ Hj) in Hsame.
  - apply list_lookup_singleton_Some in Hi as [Hi _].
    apply list_lookup_singleton_Some in Hj as [Hj _]. lia.
Qed.

(** X14 (one entry per run). Starting from the empty cache, after any run of
    evaluations the cache holds one entry for each run of the sampler, and
    the sampler ran at most once for each evaluation. *)
Theorem cache_counts_runs (population : list (list string)) (data : Data)
    (obj_func : ObjFunc) (algorithm : Algorithm Fit Model) :
  Forall (Forall (fun gene => token_ok gene = true)) population ->
  let st := evaluated_at population data obj_func algorithm
              (FitnessState [] 0) in
  length (models_so_far st) = runs st /\ runs st <= length population.
Proof.
  intros Hok.
  assert (forall st0, length (models_so_far st0) = runs st0 ->
    let st := evaluated_at population data obj_func algorithm st0 in
    length (models_so_far st) = runs st
    /\ runs st <= runs st0 + length population) as Hgen.
  { induction Hok as [|genes population Hgenes _ IH]; intros st0 Hst0.
    - simpl. lia.
    - destruct (get_fitness_keeps_count genes data obj_func algorithm st0
                  Hgenes Hst0) as [Hcount Hruns].
      destruct (IH _ Hcount) as [Hcount' Hruns']. simpl in *. lia. }
  apply (Hgen (FitnessState [] 0)). reflexivity.
Qed.

(** X15 (one entry per gene set). Starting from the empty cache, after any
    run of evaluations no two keys of the cache stand for the same genes:
    the scan of [get_fitness] has at most one key to find. *)
Theorem cache_keys_distinct (population : list (list string)) (data : Data)
    (obj_func : ObjFunc) (algorithm : Algorithm Fit Model) :
  Forall (Forall (fun gene => token_ok gene = true)) population ->
  distinct_models
    (models_so_far (evaluated_at population data obj_func algorithm
                      (FitnessState [] 0))).
Proof.
  intros Hok.
  assert (forall st0, distinct_models (models_so_far st0) ->
    distinct_models
      (models_so_far (evaluated_at population data obj_func algorithm st0)))
    as Hgen.
  { induction Hok as [|genes population Hgenes _ IH]; intros st0 Hst0.
    - done.
    - simpl. by apply IH, get_fitness_keeps_distinct. }
  apply Hgen. intros i j ???? Hi. by destruct i.
Qed.

End FitnessCacheRuns.

Lemma get_fitness_miss_appends_witness :
  get_fitness nat unit unit (list string) (fun genes _ _ => genes)
    ["river"] tt tt (fun _ run => run) (FitnessState [("snow", 7)] 1)
  = (1, FitnessState [("snow", 7); ("river", 1)] 2).
Proof.
  apply (get_fitness_miss_appends (fun genes _ _ => genes) ["river"] tt tt
           (fun _ run => run) (FitnessState [("snow", 7)] 1)).
  - by repeat constructor.
  - reflexivity.
Defined.

Lemma get_fitness_ignores_forcing_witness :
  let model genes (data : nat) (obj_func : bool) := (genes, data, obj_func) in
  let first :=
    get_fitness nat nat bool (list string * nat * bool) model
      ["snow"; "lai"] 1 true (fun _ run => run) (FitnessState [] 0) in
  get_fitness nat nat bool (list string * nat * bool) model
    ["snow"; "lai"] 2 false (fun _ run => 10 + run) first.2
  = (first.1, first.2).
Proof.
  intros model.
  apply (get_fitness_ignores_forcing model ["snow"; "lai"] 1 2 true false
           (fun _ run => run) (fun _ run => 10 + run) (FitnessState [] 0)).
  by repeat constructor.
Defined.

Lemma cache_counts_runs_witness :
  let st :=
    evaluate_all nat unit unit (list string) (fun genes _ _ => genes)
      [["snow"; "river"]; ["river"; "snow"]; ["lai"]] tt tt
      (fun _ run => run) (FitnessState [] 0) in
  length (models_so_far st) = runs st /\ runs st <= 3.
Proof.
  apply (cache_counts_runs (fun genes _ _ => genes)
           [["snow"; "river"]; ["river"; "snow"]; ["lai"]] tt tt
           (fun _ run => run)).
  by repeat constructor.
Defined.

Lemma cache_keys_distinct_witness :
  distinct_models
    (models_so_far
       (evaluate_all nat unit unit (list string) (fun genes _ _ => genes)
          [["snow"; "river"]; ["river"; "snow"]; ["lai"]] tt tt
          (fun _ run => run) (FitnessState [] 0))).
Proof.
  apply (cache_keys_distinct (fun genes _ _ => genes)
           [["snow"; "river"]; ["river"; "snow"]; ["lai"]] tt tt
           (fun _ run => run)).
  by repeat constructor.
Defined.

(** * Further properties of creation *)

Lemma create_appends fuel w genes w' :
  create fuel w = Ok genes w' ->
  forall gene, gene ∈ deref w' genes -> gene ∈ create_genes.
Proof.
  unfold create. cbv zeta. intros (g & w0 & Hnew & H)%bind_Ok_inv.
  rewrite new_list_run in Hnew. injection Hnew as <- <-.
  set (g := fresh (dom (heap w))) in *.
  match type of H with ?m ?w1 = _ =>
    assert (appends_to g create_genes m) as Happ
      by (unfold create_genes; appends) end.
  destruct (Happ _ _ _ H) as (s & E & Hs).
  assert (genes = g) as ->.
  { do 10 (apply bind_Ok_inv in H as (? & ? & _ & H)).
    by apply ret_Ok_inv in H as [-> _]. }
  rewrite deref_set_heap_eq in E. rewrite E. exact Hs.
Qed.

Lemma create_genes_checked gene :
  gene ∈ create_genes ->
  (gene ∈ LumpedCMFGenerator.gene_set
   \/ gene ∈ ["tr_first_second"; "tr_second_river"; "tr_third_river"])
  /\ token_ok gene = true.
Proof.
  intros Hgene.
  assert (forallb (fun gene =>
            (bool_decide (gene ∈ LumpedCMFGenerator.gene_set)
             || bool_decide (gene ∈ ["tr_first_second"; "tr_second_river";
                                     "tr_third_river"]))
            && token_ok gene) create_genes = true) as Hall by reflexivity.
  rewrite forallb_forall in Hall.
  apply list_elem_of_In, Hall, andb_true_iff in Hgene as [Hin Hok].
  split; [|done].
  apply orb_true_iff in Hin as [Hin|Hin]; apply bool_decide_eq_true_1 in Hin;
    auto.
Qed.

(** X16 (alphabet of create). Every gene of a genotype [create] returns is a
    gene of the universe or one of "tr_first_second", "tr_second_river" and
    "tr_third_river", and it is a token the cache key carries unharmed. *)
Theorem create_genes_catalogue (fuel : nat) (w : world) (l : list string) :
  genes_returned (create fuel w) = Some l ->
  Forall (fun gene =>
            (gene ∈ LumpedCMFGenerator.gene_set
             \/ gene ∈ ["tr_first_second"; "tr_second_river";
                        "tr_third_river"])
            /\ token_ok gene = true) l.
Proof.
  destruct (create fuel w) as [genes w'| |] eqn:Hrun; [|discriminate..].
  intros [= <-]. apply Forall_forall. intros gene Hgene.
  by eapply create_genes_checked, create_appends.
Qed.

Lemma create_genes_catalogue_witness :
  Forall (fun gene =>
            (gene ∈ LumpedCMFGenerator.gene_set
             \/ gene ∈ ["tr_first_second"; "tr_second_river";
                        "tr_third_river"])
            /\ token_ok gene = true)
         ["second_layer"; "tr_first_second"; "tr_second_third";
          "tr_second_third"; "tr_second_river"].
Proof.
  apply (create_genes_catalogue 3 (rolling [2; 5; 10; 13; 15])).
  vm_compute. reflexivity.
Defined.

Lemma safe_ret {A} (a : A) : never_raises (mret a : Py A).
Proof. by intros w e w'. Qed.

Lemma safe_bind {A B} (m : Py A) (f : A -> Py B) :
  never_raises m -> (forall a, never_raises (f a)) -> never_raises (m ≫= f).
Proof.
  intros Hm Hf w e w'. rewrite bind_run.
  destruct (m w) as [a w1|e1 w1|] eqn:E; [apply Hf | | done].
  by destruct (Hm w e1 w1).
Qed.

Lemma safe_append r x : never_raises (list_append r x).
Proof. by intros w e w'. Qed.

Lemma safe_contains x r : never_raises (list_contains x r).
Proof. by intros w e w'. Qed.

Lemma safe_new_list l : never_raises (new_list l).
Proof. by intros w e w'. Qed.

Lemma safe_random : never_raises random.random.
Proof. by intros w e w'. Qed.

Lemma safe_when b (m : Py unit) : never_raises m -> never_raises (when b m).
Proof. destruct b; [done | intros _; apply safe_ret]. Qed.

Lemma safe_if_below threshold (m : Py unit) :
  never_raises m -> never_raises (if_below threshold m).
Proof.
  intros Hm. apply safe_bind; [apply safe_random|].
  intros x. by apply safe_when.
Qed.

Lemma safe_while fuel (cond : Py bool) (body : Py unit) :
  never_raises cond -> never_raises body ->
  never_raises (while_ fuel cond body).
Proof.
  intros Hcond Hbody. induction fuel as [|fuel IH]; [by intros w e w'|].
  cbn [while_]. apply safe_bind; [done|]. intros [|].
  - apply safe_bind; [done|]. intros _. exact IH.
  - apply safe_ret.
Qed.

Lemma safe_check_for_connection genes :
  never_raises (check_for_connection genes).
Proof.
  intros w e w'. rewrite check_for_connection_run.
  by destruct (connected _).
Qed.

Ltac safe :=
  repeat first
    [ apply safe_ret
    | apply safe_random
    | apply safe_contains
    | apply safe_append
    | apply safe_new_list
    | apply safe_check_for_connection
    | apply safe_if_below
    | apply safe_when
    | apply safe_while
    | apply safe_bind; [|intros ?] ].

(** X17 (create raises nothing). Whatever is drawn and whatever the budget of
    the loop, neither [create] nor [create] followed by the validator raises
    an exception: they return, or the second-layer loop is still running. *)
Theorem create_never_raises (fuel : nat) :
  never_raises (create fuel) /\ never_raises (validated_create fuel).
Proof.
  assert (never_raises (create fuel)) as Hcreate
    by (unfold create; cbv zeta; safe).
  split; [done|]. unfold validated_create.
  apply safe_bind; [done|]. intros genes. safe.
Qed.

Lemma known_weaken present present' l :
  all_among present present' = true -> known present' l -> known present l.
Proof.
  unfold all_among. rewrite forallb_forall. intros Hall [Howned Hknown].
  split; [done|]. intros gene Hgene%list_elem_of_In.
  specialize (Hall _ Hgene). apply bool_decide_eq_true_1 in Hall. auto.
Qed.

Lemma known_snoc present l x :
  owners_among x present = true ->
  known present l -> known (x :: present) (l ++ [x]).
Proof.
  unfold owners_among. rewrite forallb_forall.
  intros Hx [Howned Hknown]. split.
  - intros gene owner Hpair Hgene. apply elem_of_app.
    apply elem_of_app in Hgene as [Hgene|Hgene%list_elem_of_singleton].
    + left. by eapply Howned.
    + subst. left. apply Hknown.
      apply list_elem_of_In in Hpair. specialize (Hx _ Hpair).
      simpl in Hx. rewrite String.eqb_refl in Hx.
      by apply bool_decide_eq_true_1 in Hx.
  - intros gene [->|Hgene]%elem_of_cons; apply elem_of_app;
      [right; apply list_elem_of_here | left; by apply Hknown].
Qed.

Section Keeps.

Context (r : loc).

Lemma keeps_ret {A} present (a : A) : keeps r present present (mret a).
Proof. by intros w a' w' [_ ->]%ret_Ok_inv. Qed.

Lemma keeps_seq {A B} present present' present'' (m : Py A) (f : A -> Py B) :
  keeps r present present' m ->
  (forall a, keeps r present' present'' (f a)) ->
  keeps r present present'' (m ≫= f).
Proof.
  intros Hm Hf w b w' (a & w1 & H1 & H2)%bind_Ok_inv Hw.
  eapply Hf; [exact H2|]. by eapply Hm.
Qed.

Lemma keeps_append present x :
  owners_among x present = true ->
  keeps r present (x :: present) (list_append r x).
Proof.
  intros Hx w a w'. rewrite list_append_run. intros [= _ <-] Hw.
  rewrite deref_set_heap_eq. by apply known_snoc.
Qed.

Lemma keeps_contains present x : keeps r present present (list_contains x r).
Proof. intros w a w'. rewrite list_contains_run. by intros [= _ <-]. Qed.

Lemma keeps_random present : keeps r present present random.random.
Proof. intros w a w' H. by injection H as _ <-. Qed.

Lemma keeps_when present present' b (m : Py unit) :
  keeps r present present' m -> all_among present present' = true ->
  keeps r present present (when b m).
Proof.
  intros Hm Hall. destruct b; [|apply keeps_ret].
  intros w a w' H Hw. eapply known_weaken; [exact Hall|]. by eapply Hm.
Qed.

Lemma keeps_if_below present present' threshold (m : Py unit) :
  keeps r present present' m -> all_among present present' = true ->
  keeps r present present (if_below threshold m).
Proof.
  intros Hm Hall. eapply keeps_seq; [apply keeps_random|].
  intros x. by eapply keeps_when.
Qed.

(** [if x in r: m]: inside, [x] is known to be present. *)
Lemma keeps_guarded present present' x (m : Py unit) :
  keeps r (x :: present) present' m -> all_among present present' = true ->
  keeps r present present (has ← list_contains x r; when has m).
Proof.
  intros Hm Hall w a w' H%guarded_run Hw.
  destruct (bool_decide (x ∈ deref w r)) eqn:Hx; [|by subst].
  apply bool_decide_eq_true_1 in Hx.
  eapply known_weaken; [exact Hall|]. eapply Hm; [exact H|].
  destruct Hw as [Howned Hknown]. split; [done|].
  intros gene [->|Hgene]%elem_of_cons; auto.
Qed.

Lemma keeps_while present present' fuel (cond : Py bool) (body : Py unit) :
  keeps r present present cond ->
  keeps r present present' body -> all_among present present' = true ->
  keeps r present present (while_ fuel cond body).
Proof.
  intros Hcond Hbody Hall. induction fuel as [|fuel IH]; [done|].
  cbn [while_]. eapply keeps_seq; [exact Hcond|]. intros [|].
  - eapply keeps_seq; [|intros _; exact IH].
    intros w a w' H Hw. eapply known_weaken; [exact Hall|]. by eapply Hbody.
  - apply keeps_ret.
Qed.

End Keeps.

(** Follows a statement, gene by gene, with the genes known to be present. *)
Ltac keeps_go :=
  first
    [ apply keeps_ret
    | apply keeps_random
    | apply keeps_contains
    | apply keeps_append; reflexivity
    | eapply keeps_if_below; [keeps_go | reflexivity]
    | eapply keeps_guarded; [keeps_go | reflexivity]
    | eapply keeps_while; [keeps_go | keeps_go | reflexivity]
    | eapply keeps_seq; [keeps_go | intros ?; keeps_go] ].

Lemma create_keeps_owners fuel w genes w' :
  create fuel w = Ok genes w' -> owned (deref w' genes).
Proof.
  unfold create. cbv zeta. intros (g & w0 & Hnew & H)%bind_Ok_inv.
  rewrite new_list_run in Hnew. injection Hnew as <- <-.
  set (g := fresh (dom (heap w))) in *.
  assert (genes = g) as ->.
  { do 10 (apply bind_Ok_inv in H as (? & ? & _ & H)).
    by apply ret_Ok_inv in H as [-> _]. }
  match type of H with ?m ?w1 = _ =>
    assert (exists present, keeps g [] present m) as [present Hkeeps]
      by (eexists; keeps_go) end.
  eapply Hkeeps; [exact H|]. rewrite deref_set_heap_eq.
  split; [|by intros ? ?%not_elem_of_nil].
  by intros ?? _ ?%not_elem_of_nil.
Qed.

(** X18 (create keeps owners). In a genotype [create] returns, every gene
    written under a condition comes with the gene the condition tests: a
    parameter with its storage or connection, the third layer with the
    second, a layer's connection with the layer. *)
Theorem create_genes_owned (fuel : nat) (w : world) (l : list string) :
  genes_returned (create fuel w) = Some l -> owned l.
Proof.
  destruct (create fuel w) as [genes w'| |] eqn:Hrun; [|discriminate..].
  intros [= <-]. by eapply create_keeps_owners.
Qed.

Lemma create_genes_owned_witness :
  owned ["snow"; "snow_melt_temp"; "second_layer"; "third_layer";
         "tr_second_third"; "tr_second_river"; "tr_third_river"].
Proof.
  apply (create_genes_owned 2 (rolling [0; 2; 4; 5; 10; 12])).
  vm_compute. reflexivity.
Defined.

Lemma after_sublist x schedule : after x schedule `sublist_of` schedule.
Proof.
  induction schedule as [|y schedule IH]; simpl; [done|].
  destruct (String.eqb y x); by apply sublist_cons.
Qed.

Lemma after_turn x schedule rest :
  x ∈ schedule -> rest `sublist_of` after x schedule ->
  x :: rest `sublist_of` schedule.
Proof.
  induction schedule as [|y schedule IH]; simpl.
  - by intros ?%not_elem_of_nil.
  - destruct (String.eqb_spec y x) as [->|Hne].
    + intros _ Hrest. by apply sublist_skip.
    + intros [?|Hin]%elem_of_cons Hrest; [congruence|].
      apply sublist_cons. by apply IH.
Qed.

Section Scheduled.

Context (r : loc).

Lemma scheduled_stay {A} schedule (m : Py A) :
  (forall w a w', m w = Ok a w' -> deref w' r = deref w r) ->
  scheduled r schedule schedule m.
Proof.
  intros Hm. split; [done|]. intros w a w' H. exists [].
  rewrite app_nil_r. split; [by eapply Hm | done].
Qed.

Lemma scheduled_ret {A} schedule (a : A) :
  scheduled r schedule schedule (mret a).
Proof. apply scheduled_stay. by intros w a' w' [_ ->]%ret_Ok_inv. Qed.

Lemma scheduled_random schedule : scheduled r schedule schedule random.random.
Proof. apply scheduled_stay. intros w a w' H. by injection H as _ <-. Qed.

Lemma scheduled_contains schedule x :
  scheduled r schedule schedule (list_contains x r).
Proof.
  apply scheduled_stay. intros w a w'. rewrite list_contains_run.
  by intros [= _ <-].
Qed.

Lemma scheduled_seq {B} schedule schedule' schedule''
    (m : Py unit) (f : unit -> Py B) :
  scheduled r schedule schedule' m ->
  (forall a, scheduled r schedule' schedule'' (f a)) ->
  scheduled r schedule schedule'' (m ≫= f).
Proof.
  intros [Hsub Hm] Hf. split.
  - destruct (Hf tt) as [Hsub' _]. by etrans.
  - intros w b w' (a & w1 & H1 & H2)%bind_Ok_inv.
    destruct (Hm _ _ _ H1) as (s1 & E1 & Hs1).
    destruct (Hf a) as [_ Hfa].
    destruct (Hfa _ _ _ H2) as (s2 & E2 & Hs2).
    exists (s1 ++ s2). rewrite E2, E1, (assoc_L (++)). split; [done|].
    intros rest Hrest. unfold outside_loop. rewrite filter_app.
    rewrite <- (assoc_L (++)). by apply Hs1, Hs2.
Qed.

Lemma scheduled_append schedule x :
  bool_decide (x ∈ schedule) && bool_decide (x ∉ loop_genes) = true ->
  scheduled r schedule (after x schedule) (list_append r x).
Proof.
  intros [Hin Hout]%andb_true_iff.
  apply bool_decide_eq_true_1 in Hin, Hout.
  split; [apply after_sublist|].
  intros w a w'. rewrite list_append_run. intros [= _ <-]. exists [x].
  rewrite deref_set_heap_eq. split; [done|]. intros rest Hrest.
  unfold outside_loop. rewrite filter_cons_True, filter_nil by done.
  by apply after_turn.
Qed.

(** A statement that writes genes of the loop only does not move the
    schedule. *)
Lemma scheduled_loop {A} schedule (m : Py A) :
  appends_to r loop_genes m -> scheduled r schedule schedule m.
Proof.
  intros Hm. split; [done|]. intros w a w' H.
  destruct (Hm _ _ _ H) as (s & E & Hs). exists s. split; [done|].
  intros rest Hrest.
  replace (outside_loop s) with (@nil string); [done|].
  symmetry. apply elem_of_nil_inv. intros gene.
  unfold outside_loop. rewrite list_elem_of_filter. intros [Hout Hin].
  by apply Hout, Hs.
Qed.

Lemma scheduled_when schedule schedule' b (m : Py unit) :
  scheduled r schedule schedule' m ->
  scheduled r schedule schedule' (when b m).
Proof.
  intros [Hsub Hm]. destruct b; [done|]. split; [done|].
  intros w a w' [_ ->]%ret_Ok_inv. exists []. rewrite app_nil_r.
  split; [done|]. intros rest Hrest. simpl. by etrans.
Qed.

Lemma scheduled_if_below schedule schedule' threshold (m : Py unit) :
  scheduled r schedule schedule' m ->
  scheduled r schedule schedule' (if_below threshold m).
Proof.
  intros Hm. destruct (scheduled_when _ _ true m Hm) as [Hsub _].
  split; [done|]. intros w a w' (x & w1 & Hroll & H)%bind_Ok_inv.
  injection Hroll as _ <-.
  destruct (scheduled_when _ _ (Qltb x threshold) m Hm) as [_ Hwhen].
  destruct (Hwhen _ _ _ H) as (s & E & Hs). by exists s.
Qed.

Lemma scheduled_guarded schedule schedule' x (m : Py unit) :
  scheduled r schedule schedule' m ->
  scheduled r schedule schedule' (has ← list_contains x r; when has m).
Proof.
  intros Hm. destruct (scheduled_when _ _ true m Hm) as [Hsub _].
  split; [done|]. intros w a w' (has & w1 & Hhas & H)%bind_Ok_inv.
  rewrite list_contains_run in Hhas. injection Hhas as _ <-.
  destruct (scheduled_when _ _ has m Hm) as [_ Hwhen].
  apply (Hwhen _ _ _ H).
Qed.

End Scheduled.

(** Follows a statement along the schedule. *)
Ltac scheduled_go :=
  first
    [ apply scheduled_ret
    | apply scheduled_append; reflexivity
    | eapply scheduled_if_below; scheduled_go
    | apply scheduled_loop; solve [unfold loop_genes; appends]
    | eapply scheduled_guarded; scheduled_go
    | eapply scheduled_seq; [scheduled_go | intros ?; scheduled_go] ].

Lemma create_follows_schedule fuel w genes w' :
  create fuel w = Ok genes w' ->
  outside_loop (deref w' genes) `sublist_of` create_genes.
Proof.
  unfold create. cbv zeta. intros (g & w0 & Hnew & H)%bind_Ok_inv.
  rewrite new_list_run in Hnew. injection Hnew as <- <-.
  set (g := fresh (dom (heap w))) in *.
  assert (genes = g) as ->.
  { do 10 (apply bind_Ok_inv in H as (? & ? & _ & H)).
    by apply ret_Ok_inv in H as [-> _]. }
  match type of H with ?m ?w1 = _ =>
    assert (exists schedule', scheduled g create_genes schedule' m)
      as (schedule' & _ & Hsched)
      by (eexists; unfold create_genes; scheduled_go) end.
  destruct (Hsched _ _ _ H) as (s & E & Hs).
  rewrite deref_set_heap_eq in E. rewrite E. simpl.
  rewrite <- (app_nil_r (outside_loop s)). apply Hs, sublist_nil_l.
Qed.

Lemma outside_loop_all l :
  (forall gene, gene ∈ l -> gene ∉ loop_genes) -> outside_loop l = l.
Proof.
  unfold outside_loop. induction l as [|x l IH]; intros Hall; [done|].
  rewrite filter_cons_True by (apply Hall, list_elem_of_here).
  rewrite IH; [done|]. intros gene Hgene. by apply Hall, list_elem_of_further.
Qed.

Lemma create_genes_nodup : NoDup create_genes.
Proof. apply (bool_decide_unpack _). vm_compute. exact I. Qed.

(** X19 (order of create). In a genotype [create] returns, the genes that the
    second-layer loop does not write stand in the order of the statements of
    [create], each at most once. Without the second layer that is the whole
    genotype: it has no duplicate. *)
Theorem create_genes_in_order (fuel : nat) (w : world) (l : list string) :
  genes_returned (create fuel w) = Some l ->
  outside_loop l `sublist_of` create_genes
  /\ NoDup (outside_loop l)
  /\ ("second_layer" ∉ l -> outside_loop l = l).
Proof.
  destruct (create fuel w) as [genes w'| |] eqn:Hrun; [|discriminate..].
  intros [= <-].
  pose proof (create_follows_schedule _ _ _ _ Hrun) as Hsub.
  split; [done|]. split.
  - exact (sublist_NoDup _ _ create_genes_nodup Hsub).
  - intros Hno. apply outside_loop_all. intros gene Hgene Hloop.
    pose proof (create_keeps_owners _ _ _ _ Hrun) as Howned.
    assert ("tr_second_third" ∈ deref w' genes
            \/ "tr_second_river" ∈ deref w' genes) as [Hc|Hc].
    { unfold loop_genes in Hloop.
      apply elem_of_cons in Hloop as [->|Hloop]; [by left|].
      apply elem_of_cons in Hloop as [->|Hloop].
      { left. apply (Howned "beta_second_third"); [in_literals | done]. }
      apply elem_of_cons in Hloop as [->|Hloop]; [by right|].
      apply list_elem_of_singleton in Hloop as ->.
      right. apply (Howned "beta_second_river"); [in_literals | done]. }
    + apply Hno, (Howned "tr_second_third"); [in_literals | done].
    + apply Hno, (Howned "tr_second_river"); [in_literals | done].
Qed.

Lemma create_genes_in_order_witness :
  let l := ["snow"; "snow_melt_temp"; "river"; "tr_first_out"] in
  outside_loop l `sublist_of` create_genes
  /\ NoDup (outside_loop l)
  /\ ("second_layer" ∉ l -> outside_loop l = l).
Proof.
  apply (create_genes_in_order 0 (rolling [0; 2; 5; 8])).
  vm_compute. reflexivity.
Defined.
